(** * python-openstackclient: network v2 and volume v2 backup commands

    A shallow embedding of the command handlers of
    [openstackclient/network/v2/network.py] and
    [openstackclient/volume/v2/backup.py], and the properties of the
    "resource action command" contract that they do (or do not) satisfy.

    Python dictionaries are finite maps ([gmap string _]); the service and
    the library helpers that the handlers call are the fields of a client
    record over an abstract world [W]; a handler is a function in a small
    state-and-exception monad over that world, and every collaborator call
    is recorded in a trace, so that "which calls, in which order" is a
    statement about a list of events. *)

From Stdlib Require Import Ascii String.
From stdpp Require Import gmap strings list fin_maps sorting pretty.

Local Open Scope string_scope.
Local Open Scope list_scope.
Local Open Scope nat_scope.

(** ** Python values *)

(** The values that travel through the handlers: flag values, the fields
    of a resource record, keyword arguments. *)
Inductive value :=
  | VNone
  | VBool (b : bool)
  | VInt (n : Z)
  | VStr (s : string)
  | VList (l : list string).

(** A resource record, a request body, a set of keyword arguments. *)
Abbreviation record := (gmap string value).

(** [x if x is not None] for a nullable string and a nullable boolean. *)
Definition of_opt_str (o : option string) : value :=
  match o with Some s => VStr s | None => VNone end.
Definition of_opt_bool (o : option bool) : value :=
  match o with Some b => VBool b | None => VNone end.

(** Truthiness of a nullable string: [None] and [''] are false. *)
Definition truthy_str (o : option string) : bool :=
  match o with
  | Some s => negb (String.eqb s "")
  | None => false
  end.

(** ** Exceptions

    Only subclasses of [Exception] are modelled: these are what the
    collaborators raise when a lookup or a call fails, and what
    [except Exception] catches. *)
Inductive exn :=
  | CommandError (msg : string)
  | KeyError (key : string)
  | TypeError (msg : string)
  | ClientError (msg : string).

(** [str(e)] *)
Definition exn_str (e : exn) : string :=
  match e with
  | CommandError m => m
  | KeyError k => "'" +:+ k +:+ "'"
  | TypeError m => m
  | ClientError m => m
  end.

Inductive outcome (A : Type) :=
  | Ok (a : A)
  | Raise (e : exn).
Arguments Ok {A} a.
Arguments Raise {A} e.

Definition is_ok {A} (r : outcome A) : bool :=
  match r with Ok _ => true | Raise _ => false end.

(** ** The command monad: state and exceptions *)

Definition M (S A : Type) : Type := S → outcome A * S.

Definition ret {S A} (a : A) : M S A := λ s, (Ok a, s).

Definition bind {S A B} (m : M S A) (k : A → M S B) : M S B :=
  λ s, match m s with
       | (Ok a, s') => k a s'
       | (Raise e, s') => (Raise e, s')
       end.

Definition raise {S A} (e : exn) : M S A := λ s, (Raise e, s).

(** [try: m  except Exception as e: h e] *)
Definition try_except {S A} (m : M S A) (h : exn → M S A) : M S A :=
  λ s, match m s with
       | (Ok a, s') => (Ok a, s')
       | (Raise e, s') => h e s'
       end.

(** [dict[key]] *)
Definition subscript {S A} (d : gmap string A) (key : string) : M S A :=
  match d !! key with
  | Some a => ret a
  | None => raise (KeyError key)
  end.

Declare Scope cmd_scope.
Delimit Scope cmd_scope with cmd.
Notation "x <- m ;; k" := (bind m (λ x, k))
  (at level 100, m at next level, right associativity) : cmd_scope.
Notation "m ;;; k" := (bind m (λ _, k))
  (at level 100, right associativity) : cmd_scope.
Local Open Scope cmd_scope.

(** [for x in l: acc = body(acc, x)], the loop variable state threaded
    through the iterations. *)
Fixpoint for_each {S A B} (l : list A) (acc : B) (body : B → A → M S B)
  : M S B :=
  match l with
  | [] => ret acc
  | x :: l' => acc' <- body acc x ;; for_each l' acc' body
  end.

(** ** Sorting the items of a dictionary

    [sorted(six.iteritems(d))]: the keys of a dictionary are distinct, so
    the tuple order on the items is the order of the keys, which for
    strings is the lexicographic order of [String.leb]. *)
Definition item_le {A} (p q : string * A) : Prop := String.le p.1 q.1.

Global Instance item_le_dec {A} : RelDecision (@item_le A).
Proof. intros p q. unfold item_le. apply _. Defined.

Definition sorted_items {A} (d : gmap string A) : list (string * A) :=
  merge_sort item_le (map_to_list d).

(** [sorted(d.keys())] *)
Definition sorted_keys {A} (d : gmap string A) : list string :=
  merge_sort String.le (map_to_list d).*1.

(** [zip( *rows )] for rows that are pairs: nothing for no rows, else the
    tuple of the first components and the tuple of the second ones. *)
Inductive zipped (A : Type) :=
  | ZEmpty
  | ZPair (keys : list string) (vals : list A).
Arguments ZEmpty {A}.
Arguments ZPair {A} keys vals.

Definition zip_star {A} (rows : list (string * A)) : zipped A :=
  match rows with
  | [] => ZEmpty
  | _ => ZPair rows.*1 rows.*2
  end.


(** ['%s' % n] for a non-negative integer *)
Definition str_nat (n : nat) : string := pretty n.

(** * Volume v2 backups: [openstackclient/volume/v2/backup.py] *)

(** A resource object of the volume client: its [id] and [name]
    attributes and the dictionary [_info] it was built from. *)
Record resource := {
  id : string;
  name : value;
  info : record;
}.

(** The managers of the volume client that the handlers look into. *)
Inductive manager := Volumes | VolumeSnapshots | Backups.

(** The collaborators of [backup.py] over a world [W]:
    [utils.find_resource(manager, name_or_id)] and the methods of
    [volume_client.backups] and [volume_client.volumes]. *)
Record VolumeClient (W : Type) := {
  find_resource : manager → string → W → outcome resource * W;
  backups_create : string → record → W → outcome resource * W;
  backups_delete : string → bool → W → outcome unit * W;
  volumes_list : W → outcome (list resource) * W;
  backups_list : W → outcome (list resource) * W;
}.
Arguments find_resource {W} _ _ _ _.
Arguments backups_create {W} _ _ _ _.
Arguments backups_delete {W} _ _ _ _.
Arguments volumes_list {W} _ _.
Arguments backups_list {W} _ _.

(** What a backup command did, in order: the calls with their arguments,
    with the result where a later step depends on it, and the lines
    written to the error log. *)
Inductive vevent :=
  | EFindResource (m : manager) (ident : string) (r : outcome string)
  | EBackupsCreate (volume_id : string) (kwargs : record)
  | EBackupsDelete (backup_id : string) (force : bool) (r : outcome unit)
  | EVolumesList
  | EBackupsList
  | ELogError (msg : string).

(** The state of a backup command: the world and the trace so far. *)
Record vstate (W : Type) := VState {
  vworld : W;
  vtrace : list vevent;
}.
Arguments VState {W} _ _.
Arguments vworld {W} _.
Arguments vtrace {W} _.

Definition res_id (r : outcome resource) : outcome string :=
  match r with Ok x => Ok (id x) | Raise e => Raise e end.

Section VolumeCalls.
Context {W : Type} (vc : VolumeClient W).

Definition call_find_resource (m : manager) (ident : string)
  : M (vstate W) resource :=
  λ s, let '(r, w) := find_resource vc m ident (vworld s) in
       (r, VState w (vtrace s ++ [EFindResource m ident (res_id r)])).

Definition call_backups_create (volume_id : string) (kwargs : record)
  : M (vstate W) resource :=
  λ s, let '(r, w) := backups_create vc volume_id kwargs (vworld s) in
       (r, VState w (vtrace s ++ [EBackupsCreate volume_id kwargs])).

Definition call_backups_delete (backup_id : string) (force : bool)
  : M (vstate W) unit :=
  λ s, let '(r, w) := backups_delete vc backup_id force (vworld s) in
       (r, VState w (vtrace s ++ [EBackupsDelete backup_id force r])).

Definition call_volumes_list : M (vstate W) (list resource) :=
  λ s, let '(r, w) := volumes_list vc (vworld s) in
       (r, VState w (vtrace s ++ [EVolumesList])).

Definition call_backups_list : M (vstate W) (list resource) :=
  λ s, let '(r, w) := backups_list vc (vworld s) in
       (r, VState w (vtrace s ++ [EBackupsList])).

(** [LOG.error(msg)] *)
Definition LOG_error (msg : string) : M (vstate W) unit :=
  λ s, (Ok (), VState (vworld s) (vtrace s ++ [ELogError msg])).
End VolumeCalls.

Module DeleteBackup.
Record parsed_args := {
  backups : list string;
  force : bool;
}.

Definition failed_msg (result total : nat) : string :=
  str_nat result +:+ " of " +:+ str_nat total +:+
  " backups failed to delete.".

Definition log_msg (i : string) (e : exn) : string :=
  "Failed to delete backup with name or ID '" +:+ i +:+ "': " +:+
  exn_str e.

(** The body of the loop, from the value of [result] before the
    iteration to its value after. *)
Definition loop_body {W} (vc : VolumeClient W) (force : bool)
    (result : nat) (i : string) : M (vstate W) nat :=
  try_except
    (backup <- call_find_resource vc Backups i ;;
     call_backups_delete vc (id backup) force ;;;
     ret result)
    (λ e, LOG_error (log_msg i e) ;;; ret (result + 1)).

Definition take_action {W} (vc : VolumeClient W) (args : parsed_args)
  : M (vstate W) unit :=
  result <- for_each (backups args) 0 (loop_body vc (force args)) ;;
  if decide (0 < result) then
    let total := length (backups args) in
    raise (CommandError (failed_msg result total))
  else ret ().
End DeleteBackup.


(** [field.lower().replace(' ', '_')]: the attribute that a column names. *)
Definition lower_ascii (c : ascii) : ascii :=
  let n := nat_of_ascii c in
  if ((65 <=? n) && (n <=? 90))%nat then ascii_of_nat (n + 32) else c.

Fixpoint field_name (field : string) : string :=
  match field with
  | EmptyString => EmptyString
  | String c rest =>
      String (if Ascii.eqb c " " then "_"%char else lower_ascii c)
             (field_name rest)
  end.

(** [getattr(item, attr, '')] on a resource object. *)
Definition getattr_default (item : resource) (attr : string) : value :=
  if decide (attr = "id") then VStr (id item)
  else if decide (attr = "name") then name item
  else default (VStr "") (info item !! attr).

(** [utils.get_item_properties(item, fields, formatters=...)] of osc_lib,
    outside this repository, as the handlers rely on it: one value per
    field, in the order of the fields; the value is the attribute that the
    field names, [''] when the item has none, passed through the formatter
    registered for the field if there is one. *)
Definition get_item_properties (item : resource) (fields : list string)
    (formatters : gmap string (value → value)) : list value :=
  (λ field,
     let data := getattr_default item (field_name field) in
     match formatters !! field with
     | Some f => f data
     | None => data
     end) <$> fields.

(** [d.pop(key, None)] as far as the dictionary goes. *)
Definition pop {A} (key : string) (d : gmap string A) : gmap string A :=
  delete key d.

Module CreateBackup.
Record parsed_args := {
  volume : string;
  name : option string;
  description : option string;
  container : option string;
  snapshot : option string;
  force : bool;
  incremental : bool;
}.

(** The keyword arguments of the call of [volume_client.backups.create]. *)
Definition create_kwargs (args : parsed_args) (snapshot_id : option string)
  : record :=
  <["container" := of_opt_str (container args)]>
  (<["name" := of_opt_str (name args)]>
  (<["description" := of_opt_str (description args)]>
  (<["force" := VBool (force args)]>
  (<["incremental" := VBool (incremental args)]>
  (<["snapshot_id" := of_opt_str snapshot_id]> ∅))))).

Definition take_action {W} (vc : VolumeClient W) (args : parsed_args)
  : M (vstate W) (zipped value) :=
  vol <- call_find_resource vc Volumes (volume args) ;;
  let volume_id := id vol in
  snapshot_id <-
    (if truthy_str (snapshot args) then
       snap <- call_find_resource vc VolumeSnapshots
                 (default "" (snapshot args)) ;;
       ret (Some (id snap))
     else ret None) ;;
  backup <- call_backups_create vc volume_id
              (create_kwargs args snapshot_id) ;;
  let _info := pop "links" (info backup) in
  ret (zip_star (sorted_items _info)).
End CreateBackup.

Module ListBackup.
Record parsed_args := {
  long : bool;
}.

(** The cache that the loop over [volumes.list()] builds:
    [volume_cache[s.id] = s] for each volume in turn. *)
Definition cache_volumes (vols : list resource) : gmap string resource :=
  foldl (λ volume_cache s, <[id s := s]> volume_cache) ∅ vols.

Definition _format_volume_id (volume_cache : gmap string resource)
    (volume_id : value) : value :=
  match volume_id with
  | VStr vid =>
      match volume_cache !! vid with
      | Some vol => name vol
      | None => volume_id
      end
  | _ => volume_id
  end.

Definition columns (args : parsed_args) : list string :=
  if long args then
    ["ID"; "Name"; "Description"; "Status"; "Size";
     "Availability Zone"; "Volume ID"; "Container"]
  else ["ID"; "Name"; "Description"; "Status"; "Size"].

Definition column_headers (args : parsed_args) : list string :=
  if long args then <[6 := "Volume"]> (columns args) else columns args.

Definition take_action {W} (vc : VolumeClient W) (args : parsed_args)
  : M (vstate W) (list string * list (list value)) :=
  volume_cache <-
    try_except (vols <- call_volumes_list vc ;; ret (cache_volumes vols))
               (λ _, ret ∅) ;;
  data <- call_backups_list vc ;;
  ret (column_headers args,
       (λ s, get_item_properties s (columns args)
               {["Volume ID" := _format_volume_id volume_cache]}) <$> data).
End ListBackup.

Module ShowBackup.
Record parsed_args := {
  backup : string;
}.

Definition take_action {W} (vc : VolumeClient W) (args : parsed_args)
  : M (vstate W) (zipped value) :=
  backup <- call_find_resource vc Backups (backup args) ;;
  let _info := pop "links" (info backup) in
  ret (zip_star (sorted_items _info)).
End ShowBackup.

(** * Network v2: [openstackclient/network/v2/network.py] *)

(** A request body [{'network': {...}}]. *)
Abbreviation body := (gmap string record).

(** The response of a call that returns one record under a key: the
    record, or [None] for a JSON [null]. *)
Abbreviation response := (gmap string (option record)).

(** The response of a listing call: the records under a key. *)
Abbreviation listing := (gmap string (list record)).

(** The collaborators of [network.py] over a world [W]:
    [common.find(client, resource, collection, name_or_id)],
    [utils.format_list] and the methods of the network client. The
    sources of [common.find] and [utils.format_list] are not at hand, so
    they are parameters like the client: nothing is assumed of them. *)
Record NetworkClient (W : Type) := {
  find : string → string → string → W → outcome string * W;
  format_list : value → value;
  create_network : body → W → outcome response * W;
  delete_network : string → W → outcome unit * W;
  list_networks : record → W → outcome listing * W;
  list_networks_on_dhcp_agent : record → W → outcome listing * W;
  update_network : string → body → W → outcome unit * W;
  show_network : string → W → outcome response * W;
}.
Arguments find {W} _ _ _ _ _.
Arguments format_list {W} _ _.
Arguments create_network {W} _ _ _.
Arguments delete_network {W} _ _ _.
Arguments list_networks {W} _ _ _.
Arguments list_networks_on_dhcp_agent {W} _ _ _.
Arguments update_network {W} _ _ _ _.
Arguments show_network {W} _ _ _.

(** What a network command did, in order. *)
Inductive nevent :=
  | EFind (resource collection ident : string) (r : outcome string)
  | ECreateNetwork (b : body)
  | EDeleteNetwork (_id : string) (r : outcome unit)
  | EListNetworks (report_filter : record)
  | EListNetworksOnDhcpAgent (report_filter : record)
  | EUpdateNetwork (_id : string) (b : body)
  | EShowNetwork (_id : string).

Record nstate (W : Type) := NState {
  nworld : W;
  ntrace : list nevent;
}.
Arguments NState {W} _ _.
Arguments nworld {W} _.
Arguments ntrace {W} _.

Section NetworkCalls.
Context {W : Type} (nc : NetworkClient W).

Definition call_find (resource collection ident : string)
  : M (nstate W) string :=
  λ s, let '(r, w) := find nc resource collection ident (nworld s) in
       (r, NState w (ntrace s ++ [EFind resource collection ident r])).

Definition call_create_network (b : body) : M (nstate W) response :=
  λ s, let '(r, w) := create_network nc b (nworld s) in
       (r, NState w (ntrace s ++ [ECreateNetwork b])).

Definition call_delete_network (_id : string) : M (nstate W) unit :=
  λ s, let '(r, w) := delete_network nc _id (nworld s) in
       (r, NState w (ntrace s ++ [EDeleteNetwork _id r])).

Definition call_list_networks (report_filter : record)
  : M (nstate W) listing :=
  λ s, let '(r, w) := list_networks nc report_filter (nworld s) in
       (r, NState w (ntrace s ++ [EListNetworks report_filter])).

Definition call_list_networks_on_dhcp_agent (report_filter : record)
  : M (nstate W) listing :=
  λ s, let '(r, w) :=
         list_networks_on_dhcp_agent nc report_filter (nworld s) in
       (r, NState w (ntrace s ++ [EListNetworksOnDhcpAgent report_filter])).

Definition call_update_network (_id : string) (b : body)
  : M (nstate W) unit :=
  λ s, let '(r, w) := update_network nc _id b (nworld s) in
       (r, NState w (ntrace s ++ [EUpdateNetwork _id b])).

Definition call_show_network (_id : string) : M (nstate W) response :=
  λ s, let '(r, w) := show_network nc _id (nworld s) in
       (r, NState w (ntrace s ++ [EShowNetwork _id])).

(** [filters(data)] for a dictionary [data]. *)
Definition filters (data : record) : record :=
  match data !! "subnets" with
  | Some subnets => <["subnets" := format_list nc subnets]> data
  | None => data
  end.
End NetworkCalls.

Module CreateNetwork.
Record parsed_args := {
  name : string;
  admin_state : option bool;
  shared : option bool;
}.

Definition get_body (args : parsed_args) : body :=
  let b : record :=
    <["name" := VStr (name args)]>
    (<["admin_state_up" := of_opt_bool (admin_state args)]> ∅) in
  let b :=
    match shared args with
    | Some sh => <["shared" := VBool sh]> b
    | None => b
    end in
  {["network" := b]}.

Definition take_action {W} (nc : NetworkClient W) (args : parsed_args)
  : M (nstate W) (zipped value) :=
  let b := get_body args in
  resp <- call_create_network nc b ;;
  data <- subscript resp "network" ;;
  let data : record :=
    match data with
    | Some d => if decide (d = ∅) then {["" := VStr ""]} else filters nc d
    | None => {["" := VStr ""]}
    end in
  ret (zip_star (sorted_items data)).
End CreateNetwork.

Module DeleteNetwork.
Record parsed_args := {
  networks : list string;
}.

(** The body of the loop. *)
Definition loop_body {W} (nc : NetworkClient W) (_ : unit)
    (network : string) : M (nstate W) unit :=
  _id <- call_find nc "network" "networks" network ;;
  call_delete_network nc _id.

Definition take_action {W} (nc : NetworkClient W) (args : parsed_args)
  : M (nstate W) unit :=
  for_each (networks args) () (loop_body nc).
End DeleteNetwork.

(** Modelled from the spec: [utils.get_dict_properties(item, fields,
    formatters=...)] of [openstackclient.common.utils] is not among the
    sources at hand. By its contract the row aligns positionally with the
    columns, a missing key renders as the empty string and the formatter
    registered for a column is applied to its value; the key of a column
    is derived from its name as in [get_item_properties]. *)
Definition get_dict_properties (item : record) (fields : list string)
    (formatters : gmap string (value → value)) : list value :=
  (λ field,
     let data := default (VStr "") (item !! field_name field) in
     match formatters !! field with
     | Some f => f data
     | None => data
     end) <$> fields.

Module ListNetwork.
Record parsed_args := {
  external : bool;
  dhcp : option string;
  long : bool;
  columns : list string;
}.

(** [len(data) > 0 and sorted(data[0].keys()) or []] *)
Definition first_keys (data : list record) : list string :=
  match data with
  | d :: _ => sorted_keys d
  | [] => []
  end.

Definition take_action {W} (nc : NetworkClient W) (args : parsed_args)
  : M (nstate W) (list string * list (list value)) :=
  data <-
    (if truthy_str (dhcp args) then
       let report_filter : record :=
         {["dhcp_agent" := of_opt_str (dhcp args)]} in
       resp <- call_list_networks_on_dhcp_agent nc report_filter ;;
       subscript resp "networks_on_dhcp_agent"
     else
       let report_filter : record :=
         if external args then {["router:external" := VBool true]} else ∅ in
       resp <- call_list_networks nc report_filter ;;
       subscript resp "networks") ;;
  let cols := first_keys data in
  let list_columns :=
    match columns args with
    | [] => ["id"; "name"; "subnets"]
    | _ => columns args
    end in
  let cols :=
    if negb (long args) && negb (truthy_str (dhcp args))
    then filter (λ x, x ∈ cols) list_columns
    else cols in
  let formatters : gmap string (value → value) :=
    {["subnets" := format_list nc]} in
  ret (cols, (λ s, get_dict_properties s cols formatters) <$> data).
End ListNetwork.

Module SetNetwork.
Record parsed_args := {
  identifier : string;
  name : option string;
  admin_state : option bool;
  shared : option bool;
}.

(** The partial body that the three [if ... is not None] build. *)
Definition build_body (args : parsed_args) : record :=
  let b : record := ∅ in
  let b := match name args with
           | Some n => <["name" := VStr n]> b | None => b end in
  let b := match admin_state args with
           | Some a => <["admin_state_up" := VBool a]> b | None => b end in
  let b := match shared args with
           | Some sh => <["shared" := VBool sh]> b | None => b end in
  b.

Definition take_action {W} (nc : NetworkClient W) (args : parsed_args)
  : M (nstate W) unit :=
  _id <- call_find nc "network" "networks" (identifier args) ;;
  let b := build_body args in
  if decide (b = ∅) then
    raise (CommandError "Nothing specified to be set")
  else
    call_update_network nc _id {["network" := b]}.
End SetNetwork.

Module ShowNetwork.
Record parsed_args := {
  identifier : string;
}.

Definition take_action {W} (nc : NetworkClient W) (args : parsed_args)
  : M (nstate W) (zipped value) :=
  _id <- call_find nc "network" "networks" (identifier args) ;;
  resp <- call_show_network nc _id ;;
  data <- subscript resp "network" ;;
  match data with
  | Some d => ret (zip_star (sorted_items (filters nc d)))
  | None => raise (TypeError "argument of type 'NoneType' is not iterable")
  end.
End ShowNetwork.

(** * The flag parsers: [get_parser]

    [get_parser] extends the parser of the base class of the command
    with arguments of its own. Both the base class ([cliff]) and the
    parser itself ([argparse]) are outside this repository. The model
    keeps what [get_parser] decides: the arguments it adds, each with its
    destination, action, [default=] and mutually exclusive group. It takes
    as given what [argparse] decides on its own, the matching of the
    tokens of a command line to the options (by the exact option string,
    by an unambiguous prefix, as [--opt=value], as a positional after
    [--]), and what the options of the base class are. So the input of
    the model is the sequence of occurrences that the matching yields, in
    the order of the command line, not the tokens. *)

Inductive action := store | store_true | store_false.

Record argument := Argument {
  option_string : string;
  dest : string;
  act : action;
  default_kw : option value;
  group : option nat;
}.

(** The default of an action: the [default=] keyword when given, else
    what the action class sets. *)
Definition action_default (a : argument) : value :=
  match default_kw a with
  | Some v => v
  | None =>
      match act a with
      | store => VNone
      | store_true => VBool false
      | store_false => VBool true
      end
  end.

Record parser := Parser {
  positionals : list argument;
  optionals : list argument;
}.

Abbreviation namespace := (gmap string value).

(** What the parser meets on a command line, however it is spelled: a
    flag of [get_parser], named by the option string it was added with;
    an option of [get_parser] that stores a value, with the value; a
    positional token; an option of the base class, with the destination
    it writes to and the value it leaves there. *)
Inductive occurrence :=
  | OFlag (opt : string)
  | OStore (opt : string) (v : string)
  | OPositional (tok : string)
  | OInherited (d : string) (v : value).

(** The namespace before any occurrence is read. The arguments of the
    base class come first and leave their defaults in [base]; then each
    destination of [get_parser] that has no value yet gets the default of
    the first argument that names it. *)
Definition initial_namespace (p : parser) (base : namespace) : namespace :=
  foldl (λ ns a,
           match ns !! dest a with
           | Some _ => ns
           | None => <[dest a := action_default a]> ns
           end) base (positionals p ++ optionals p).

(** An option conflicts with the options seen so far when one of them is
    another option of its mutually exclusive group. *)
Definition conflicts (opts : list argument) (seen : list string)
    (a : argument) : bool :=
  match group a with
  | None => false
  | Some g =>
      existsb (λ b, bool_decide (group b = Some g) &&
                    negb (String.eqb (option_string b) (option_string a)) &&
                    bool_decide (option_string b ∈ seen)) opts
  end.

Definition lookup_option (opts : list argument) (opt : string)
  : option argument :=
  List.find (λ a, String.eqb (option_string a) opt) opts.

(** The pass over the occurrences. [None] is a usage error: an option
    that [get_parser] did not add or that is used against its action, two
    options of one mutually exclusive group, a positional too many or
    too few. *)
Fixpoint consume (opts : list argument) (pos : list argument)
    (seen : list string) (ns : namespace) (occs : list occurrence)
  : option namespace :=
  match occs with
  | [] => match pos with [] => Some ns | _ => None end
  | OFlag opt :: rest =>
      match lookup_option opts opt with
      | None => None
      | Some a =>
          if conflicts opts seen a then None else
          match act a with
          | store_true =>
              consume opts pos (opt :: seen) (<[dest a := VBool true]> ns)
                rest
          | store_false =>
              consume opts pos (opt :: seen) (<[dest a := VBool false]> ns)
                rest
          | store => None
          end
      end
  | OStore opt v :: rest =>
      match lookup_option opts opt with
      | None => None
      | Some a =>
          if conflicts opts seen a then None else
          match act a with
          | store =>
              consume opts pos (opt :: seen) (<[dest a := VStr v]> ns) rest
          | _ => None
          end
      end
  | OPositional tok :: rest =>
      match pos with
      | a :: pos' => consume opts pos' seen (<[dest a := VStr tok]> ns) rest
      | [] => None
      end
  | OInherited d v :: rest => consume opts pos seen (<[d := v]> ns) rest
  end.

Definition parse_args (p : parser) (base : namespace)
    (occs : list occurrence) : option namespace :=
  consume (optionals p) (positionals p) [] (initial_namespace p base) occs.

(** The flags of a command line, the values given to an option that
    stores, the positional tokens, and all the options of [get_parser]
    that are there. *)
Definition flags (occs : list occurrence) : list string :=
  omap (λ o, match o with OFlag opt => Some opt | _ => None end) occs.


Definition positional_tokens (occs : list occurrence) : list string :=
  omap (λ o, match o with OPositional tok => Some tok | _ => None end) occs.


(** The base class keeps off a destination: it has no default for it and
    none of its options writes to it. *)
Definition apart_from (d : string) (base : namespace)
    (occs : list occurrence) : Prop :=
  base !! d = None ∧
  Forall (λ o, match o with OInherited d' _ => d' ≠ d | _ => True end) occs.

(** The base class keeps off every destination of the parser. *)
Definition inherited_apart (p : parser) (base : namespace)
    (occs : list occurrence) : Prop :=
  Forall (λ a, apart_from (dest a) base occs)
         (positionals p ++ optionals p).

(** [CreateNetwork.get_parser] *)
Definition CreateNetwork_parser : parser :=
  Parser
    [Argument "name" "name" store None None]
    [Argument "--enable" "admin_state" store_true (Some (VBool true))
       (Some 0);
     Argument "--disable" "admin_state" store_false None (Some 0);
     Argument "--share" "shared" store_true (Some VNone) (Some 1);
     Argument "--no-share" "shared" store_false None (Some 1)].

(** [SetNetwork.get_parser] *)
Definition SetNetwork_parser : parser :=
  Parser
    [Argument "identifier" "identifier" store None None]
    [Argument "--name" "name" store None None;
     Argument "--enable" "admin_state" store_true (Some VNone) (Some 0);
     Argument "--disable" "admin_state" store_false None (Some 0);
     Argument "--share" "shared" store_true (Some VNone) (Some 1);
     Argument "--no-share" "shared" store_false None (Some 1)].

(** The value of a pair of flags after a parse, from the flags [argv] of
    the command line: [True] with the first flag there, [False] with the
    second, and [unset] with neither. A tri-state pair is one whose
    [unset] is [None]. *)
Definition toggle_value (unset : value) (on off : string)
    (argv : list string) : value :=
  if decide (on ∈ argv) then VBool true
  else if decide (off ∈ argv) then VBool false
  else unset.

(** The value of a tri-state pair. *)
Definition tristate (on off : string) (argv : list string) : value :=
  toggle_value VNone on off argv.

(** The toggle [--enable]/[--disable] of [CreateNetwork]: enabled unless
    disabled. *)
Definition enabled_unless (off : string) (argv : list string) : value :=
  if decide (off ∈ argv) then VBool false else VBool true.

(** * Fake clients

    Small concrete services, to run the handlers on. *)
Module Fakes.

(** A volume service: the backups that exist (the name of a backup is its
    ID) and what listing the volumes answers. *)
Record volume_world := {
  existing_backups : list string;
  volumes_reply : outcome (list resource);
}.

Definition fake_backup (i : string) : resource :=
  {| id := i; name := VStr i;
     info := {["id" := VStr i; "name" := VStr i;
               "links" := VList ["http://volume/backups/" +:+ i]]} |}.

Definition volume_client : VolumeClient volume_world := {|
  find_resource m i w :=
    match m with
    | Backups =>
        if decide (i ∈ existing_backups w) then (Ok (fake_backup i), w)
        else (Raise (CommandError
                       ("No backup with a name or ID of '" +:+ i +:+
                        "' exists.")), w)
    | _ => (Ok {| id := i; name := VStr i; info := ∅ |}, w)
    end;
  backups_create volume_id kwargs w :=
    (Ok {| id := "b0"; name := default VNone (kwargs !! "name");
           info := <["volume_id" := VStr volume_id]>
                   (<["links" := VList []]> kwargs) |},
     {| existing_backups := "b0" :: existing_backups w;
        volumes_reply := volumes_reply w |});
  backups_delete backup_id _ w :=
    if decide (backup_id ∈ existing_backups w) then
      (Ok (), {| existing_backups :=
                   filter (λ b, b ≠ backup_id) (existing_backups w);
                 volumes_reply := volumes_reply w |})
    else (Raise (ClientError "404 Not Found"), w);
  volumes_list w := (volumes_reply w, w);
  backups_list w :=
    (Ok ((λ i, {| id := i; name := VStr i;
                  info := {["volume_id" := VStr ("vol-" +:+ i)]} |})
           <$> existing_backups w), w);
|}.

(** A network service: the networks that exist (the name of a network is
    its ID) and what the calls that return records answer. *)
Record network_world := {
  existing_networks : list string;
  record_reply : response;
  listing_reply : listing;
}.

Definition network_client : NetworkClient network_world := {|
  find _ _ ident w :=
    if decide (ident ∈ existing_networks w) then (Ok ident, w)
    else (Raise (CommandError ("No network with a name or ID of '" +:+
                               ident +:+ "' found")), w);
  format_list v := v;
  create_network _ w := (Ok (record_reply w), w);
  delete_network _id w :=
    (Ok (), {| existing_networks :=
                 filter (λ n, n ≠ _id) (existing_networks w);
               record_reply := record_reply w;
               listing_reply := listing_reply w |});
  list_networks _ w := (Ok (listing_reply w), w);
  list_networks_on_dhcp_agent _ w := (Ok (listing_reply w), w);
  update_network _ _ w := (Ok (), w);
  show_network _ w := (Ok (record_reply w), w);
|}.

End Fakes.

(** * The vocabulary of the contract *)

(** [sub] occurs in [s]. *)
Definition contains (sub s : string) : Prop :=
  ∃ pre post, s = pre +:+ sub +:+ post.



(** ** Traces of the delete commands *)

(** The identifiers that a backup command tried to resolve, in order. *)
Definition vattempts (tr : list vevent) : list string :=
  omap (λ ev, match ev with
              | EFindResource _ ident _ => Some ident
              | _ => None
              end) tr.

(** The calls of a backup command that failed. *)
Definition vfailed (ev : vevent) : bool :=
  match ev with
  | EFindResource _ _ (Raise _) => true
  | EBackupsDelete _ _ (Raise _) => true
  | _ => false
  end.
Definition vfailures (tr : list vevent) : nat :=
  length (filter (λ ev, vfailed ev = true) tr).

(** The backups that were deleted: the successful delete calls. *)
Definition vdeleted (tr : list vevent) : list string :=
  omap (λ ev, match ev with
              | EBackupsDelete backup_id _ (Ok _) => Some backup_id
              | _ => None
              end) tr.

(** The same for a network command. *)
Definition nattempts (tr : list nevent) : list string :=
  omap (λ ev, match ev with
              | EFind _ _ ident _ => Some ident
              | _ => None
              end) tr.

Definition nfailed (ev : nevent) : bool :=
  match ev with
  | EFind _ _ _ (Raise _) => true
  | EDeleteNetwork _ (Raise _) => true
  | _ => false
  end.
Definition nfailures (tr : list nevent) : nat :=
  length (filter (λ ev, nfailed ev = true) tr).

(** The error of the last call of a network command, if it failed. *)
Definition nlast_error (tr : list nevent) : option exn :=
  match last tr with
  | Some (EFind _ _ _ (Raise e)) => Some e
  | Some (EDeleteNetwork _ (Raise e)) => Some e
  | _ => None
  end.

(** How a run of the loop of [DeleteNetwork] ended: with every call
    successful, or with the error of its last call, the only failed one. *)
Definition network_loop_end (out : outcome unit) (tr : list nevent)
  : Prop :=
  match out with
  | Ok _ => nfailures tr = 0
  | Raise e => nfailures tr = 1 ∧ nlast_error tr = Some e
  end.

(** The contract of Delete for one invocation: every identifier was
    attempted, and [CommandError] is raised exactly when some item failed,
    with a message that contains the number of failures and the number of
    identifiers. *)
Definition delete_contract (identifiers attempts : list string)
    (failures : nat) (out : outcome unit) : Prop :=
  attempts = identifiers ∧
  (failures = 0 → out = Ok ()) ∧
  (0 < failures →
   ∃ msg, out = Raise (CommandError msg) ∧
          contains (str_nat failures) msg ∧
          contains (str_nat (length identifiers)) msg).

(** What [DeleteBackup] does for one identifier: a lookup, then a delete
    of the ID that the lookup returned; a failure of either ends the work
    on the item with a line in the error log. *)
Inductive backup_block (force : bool) (i : string) : list vevent → Prop :=
  | backup_deleted backup_id :
      backup_block force i
        [EFindResource Backups i (Ok backup_id);
         EBackupsDelete backup_id force (Ok ())]
  | backup_delete_failed backup_id e :
      backup_block force i
        [EFindResource Backups i (Ok backup_id);
         EBackupsDelete backup_id force (Raise e);
         ELogError (DeleteBackup.log_msg i e)]
  | backup_unresolved e :
      backup_block force i
        [EFindResource Backups i (Raise e);
         ELogError (DeleteBackup.log_msg i e)].

(** What [DeleteNetwork] does for one identifier. *)
Inductive network_block (i : string) : list nevent → Prop :=
  | network_deleted _id r :
      network_block i
        [EFind "network" "networks" i (Ok _id); EDeleteNetwork _id r]
  | network_unresolved e :
      network_block i [EFind "network" "networks" i (Raise e)].

(** The two ways a block of [DeleteNetwork] ends: the network is
    resolved and deleted, or one of the two calls fails with [e] (and
    after a failed lookup there is no delete call). *)
Definition network_done (i : string) (blk : list nevent) : Prop :=
  ∃ _id, blk = [EFind "network" "networks" i (Ok _id);
                EDeleteNetwork _id (Ok ())].

Definition network_failed (i : string) (e : exn) (blk : list nevent)
  : Prop :=
  blk = [EFind "network" "networks" i (Raise e)] ∨
  ∃ _id, blk = [EFind "network" "networks" i (Ok _id);
                EDeleteNetwork _id (Raise e)].

(** The run of a delete loop of [DeleteNetwork] ends in one of two ways.
    Either it returns, and the trace is a done block for each identifier,
    in order. Or it raises [e], and the identifiers split into those done,
    the one whose block failed with [e], and the rest, for which the
    trace has nothing. *)
Definition network_run_shape (identifiers : list string)
    (out : outcome unit) (tr : list nevent) : Prop :=
  match out with
  | Ok _ =>
      ∃ blocks, Forall2 network_done identifiers blocks ∧ tr = concat blocks
  | Raise e =>
      ∃ done_ids i rest blocks blk,
        identifiers = done_ids ++ i :: rest ∧
        Forall2 network_done done_ids blocks ∧
        network_failed i e blk ∧
        tr = concat blocks ++ blk
  end.

(** The blocks of a backup trace in which a call failed: one per
    identifier that failed. *)
Definition failed_blocks (blocks : list (list vevent))
  : list (list vevent) :=
  filter (λ blk, 0 < vfailures blk) blocks.

(** A trace is sequential over the identifiers when it is the blocks of
    the identifiers one after the other, in the order of the identifiers. *)
Definition sequential {E} (block : string → list E → Prop)
    (identifiers : list string) (tr : list E) : Prop :=
  ∃ blocks, Forall2 block identifiers blocks ∧ tr = concat blocks.

(** ** Request bodies *)

(** The update calls of a trace. *)
Definition updates (tr : list nevent) : list (string * body) :=
  omap (λ ev, match ev with
              | EUpdateNetwork _id b => Some (_id, b)
              | _ => None
              end) tr.

(** The create calls of a backup trace. *)
Definition creates (tr : list vevent) : list (string * record) :=
  omap (λ ev, match ev with
              | EBackupsCreate volume_id kwargs => Some (volume_id, kwargs)
              | _ => None
              end) tr.

(** The key of a flag, when the user set the flag. *)
Definition key_if {A} (key : string) (flag : option A) : gset string :=
  match flag with Some _ => {[key]} | None => ∅ end.
Definition key_if_true (key : string) (flag : bool) : gset string :=
  if flag then {[key]} else ∅.

(** The keys that the set-if-present rule allows in the body of
    [CreateNetwork]: the required ones and the one of [--share] or
    [--no-share]. *)
Definition CreateNetwork_keys (args : CreateNetwork.parsed_args)
  : gset string :=
  {["name"; "admin_state_up"]} ∪ key_if "shared" (CreateNetwork.shared args).

(** The keys that the rule allows in the keyword arguments of
    [CreateBackup]. *)
Definition CreateBackup_keys (args : CreateBackup.parsed_args)
  : gset string :=
  key_if "name" (CreateBackup.name args) ∪
  key_if "description" (CreateBackup.description args) ∪
  key_if "container" (CreateBackup.container args) ∪
  key_if "snapshot_id" (CreateBackup.snapshot args) ∪
  key_if_true "force" (CreateBackup.force args) ∪
  key_if_true "incremental" (CreateBackup.incremental args).

(** The fields that the user set on [SetNetwork]. *)
Definition SetNetwork_fields (args : SetNetwork.parsed_args)
  : list (string * value) :=
  match SetNetwork.name args with Some n => [("name", VStr n)] | None => [] end
  ++ match SetNetwork.admin_state args with
     | Some a => [("admin_state_up", VBool a)] | None => [] end
  ++ match SetNetwork.shared args with
     | Some sh => [("shared", VBool sh)] | None => [] end.

(** * The rest of the commands *)

(** ** [RestoreBackup]

    [volume_client.restores], the manager that [RestoreBackup] calls. *)
Record RestoresManager (W : Type) := {
  restore : string → string → W → outcome resource * W;
}.
Arguments restore {W} _ _ _ _.

(** The state of [RestoreBackup]: the state of a backup command, and the
    restore calls so far, each with the backup ID and the volume ID. *)
Record rstate (W : Type) := RState {
  rvolume : vstate W;
  rrestores : list (string * string);
}.
Arguments RState {W} _ _.
Arguments rvolume {W} _.
Arguments rrestores {W} _.

(** A call of the volume client, in the state of [RestoreBackup]. *)
Definition lift_volume {W A} (m : M (vstate W) A) : M (rstate W) A :=
  λ s, let '(r, v) := m (rvolume s) in (r, RState v (rrestores s)).

Definition call_restore {W} (rm : RestoresManager W)
    (backup_id volume_id : string) : M (rstate W) resource :=
  λ s, let '(r, w) := restore rm backup_id volume_id (vworld (rvolume s)) in
       (r, RState (VState w (vtrace (rvolume s)))
                  (rrestores s ++ [(backup_id, volume_id)])).

Module RestoreBackup.
Record parsed_args := {
  backup : string;
  volume : string;
}.

Definition take_action {W} (vc : VolumeClient W) (rm : RestoresManager W)
    (args : parsed_args) : M (rstate W) resource :=
  backup <- lift_volume (call_find_resource vc Backups (backup args)) ;;
  destination_volume <-
    lift_volume (call_find_resource vc Volumes (volume args)) ;;
  call_restore rm (id backup) (id destination_volume).
End RestoreBackup.

(** ** More of the traces *)

(** The lines that a backup command wrote to the error log. *)
Definition vlogged (tr : list vevent) : list string :=
  omap (λ ev, match ev with
              | ELogError msg => Some msg
              | _ => None
              end) tr.

(** The [force] arguments of the delete calls of a backup command. *)
Definition vforces (tr : list vevent) : list bool :=
  omap (λ ev, match ev with
              | EBackupsDelete _ force _ => Some force
              | _ => None
              end) tr.

(** The networks that a network command deleted: the successful delete
    calls. *)
Definition ndeleted (tr : list nevent) : list string :=
  omap (λ ev, match ev with
              | EDeleteNetwork _id (Ok _) => Some _id
              | _ => None
              end) tr.

(** ** From the namespace to the arguments of a handler

    [parsed_args.attr] reads the namespace that the parser built. *)
Definition as_str (v : value) : option string :=
  match v with VStr s => Some s | _ => None end.
Definition as_opt_bool (v : value) : option (option bool) :=
  match v with
  | VBool b => Some (Some b)
  | VNone => Some None
  | _ => None
  end.

Definition CreateNetwork_args (ns : namespace)
  : option CreateNetwork.parsed_args :=
  n ← ns !! "name" ≫= as_str;
  a ← ns !! "admin_state" ≫= as_opt_bool;
  sh ← ns !! "shared" ≫= as_opt_bool;
  Some {| CreateNetwork.name := n; CreateNetwork.admin_state := a;
          CreateNetwork.shared := sh |}.


(** The value of a pair of flags, as the handler reads it. *)
Definition flag_pair (on off : string) (argv : list string) : option bool :=
  if decide (on ∈ argv) then Some true
  else if decide (off ∈ argv) then Some false
  else None.

(** A restore manager to run [RestoreBackup] on: it answers with a
    record of the restore. *)
Definition fake_restores : RestoresManager Fakes.volume_world := {|
  restore backup_id volume_id w :=
    (Ok {| id := backup_id; name := VNone;
           info := {["backup_id" := VStr backup_id;
                     "volume_id" := VStr volume_id]} |}, w);
|}.

(** * Properties *)

(** ** Strings and sorted items *)

Lemma contains_app (pre sub post : string) :
  contains sub (pre +:+ sub +:+ post).
Proof. by exists pre, post. Qed.

Lemma string_app_assoc (a b c : string) : (a +:+ b) +:+ c = a +:+ (b +:+ c).
Proof.
  induction a as [|x a IH]; [done|].
  change (String x ((a +:+ b) +:+ c) = String x (a +:+ (b +:+ c))).
  by rewrite IH.
Qed.

Global Instance item_le_trans {A} : Transitive (@item_le A).
Proof. intros p q r. unfold item_le. apply transitivity. Qed.

Global Instance item_le_total {A} : Total (@item_le A).
Proof. intros p q. unfold item_le. apply total, _. Qed.



Lemma sorted_items_nil {A} (d : gmap string A) :
  sorted_items d = [] ↔ d = ∅.
Proof.
  rewrite <-map_to_list_empty_iff. unfold sorted_items. split.
  - intros H. apply Permutation_nil_r. rewrite <-H.
    by rewrite merge_sort_Permutation.
  - intros ->. done.
Qed.





Lemma sorted_keys_spec {A} (d : gmap string A) :
  StronglySorted String.le (sorted_keys d) ∧
  NoDup (sorted_keys d) ∧
  ∀ k, k ∈ sorted_keys d ↔ is_Some (d !! k).
Proof.
  unfold sorted_keys. split; [|split].
  - apply StronglySorted_merge_sort; apply _.
  - rewrite merge_sort_Permutation. apply NoDup_fst_map_to_list.
  - intros k. rewrite merge_sort_Permutation, list_elem_of_fmap. split.
    + intros ([k' v] & -> & Hin). apply elem_of_map_to_list in Hin.
      by exists v.
    + intros [v Hv]. exists (k, v). split; [done|].
      by apply elem_of_map_to_list.
Qed.

(** ** The delete loops *)

Lemma vattempts_app tr1 tr2 :
  vattempts (tr1 ++ tr2) = vattempts tr1 ++ vattempts tr2.
Proof. apply omap_app. Qed.

Lemma vfailures_app tr1 tr2 :
  vfailures (tr1 ++ tr2) = vfailures tr1 + vfailures tr2.
Proof. unfold vfailures. by rewrite filter_app, length_app. Qed.

Lemma nattempts_app tr1 tr2 :
  nattempts (tr1 ++ tr2) = nattempts tr1 ++ nattempts tr2.
Proof. apply omap_app. Qed.

Lemma nfailures_app tr1 tr2 :
  nfailures (tr1 ++ tr2) = nfailures tr1 + nfailures tr2.
Proof. unfold nfailures. by rewrite filter_app, length_app. Qed.

(** One block of [DeleteBackup] is one attempt, with at most one failed
    call, and a line in the log exactly when a call failed. *)
Lemma backup_block_attempt force i blk :
  backup_block force i blk →
  vattempts blk = [i] ∧ vfailures blk ≤ 1.
Proof. destruct 1; (split; [done|]); vm_compute; lia. Qed.

Lemma backup_blocks_attempts force items blocks :
  Forall2 (backup_block force) items blocks →
  vattempts (concat blocks) = items.
Proof.
  induction 1 as [|i blk items blocks Hb _ IH]; [done|].
  simpl. rewrite vattempts_app, IH.
  by destruct (backup_block_attempt _ _ _ Hb) as [-> _].
Qed.

(** One iteration of the loop of [DeleteBackup.take_action]: it never
    raises, it adds one block to the trace, and it adds to the counter the
    number of failed calls of the block. *)
Lemma DeleteBackup_loop_body {W} (vc : VolumeClient W) force result i
    (s : vstate W) :
  ∃ blk s',
    DeleteBackup.loop_body vc force result i s
    = (Ok (result + vfailures blk), s') ∧
    backup_block force i blk ∧
    vtrace s' = vtrace s ++ blk.
Proof.
  unfold DeleteBackup.loop_body, try_except, bind, call_find_resource,
    call_backups_delete, LOG_error, ret.
  destruct (find_resource vc Backups i (vworld s)) as [[b|e] w]; simpl.
  - destruct (backups_delete vc (id b) force w) as [[[]|e] w']; simpl.
    + eexists _, _. split; [|split; [apply backup_deleted|]].
      * by rewrite Nat.add_0_r.
      * simpl. by rewrite <-app_assoc.
    + eexists _, _. split; [|split; [apply backup_delete_failed|]].
      * reflexivity.
      * simpl. by rewrite <-!app_assoc.
  - eexists _, _. split; [|split; [apply backup_unresolved|]].
    + reflexivity.
    + simpl. by rewrite <-!app_assoc.
Qed.

(** The whole loop, from any state and any value of the counter. *)
Lemma DeleteBackup_loop {W} (vc : VolumeClient W) force items :
  ∀ (acc : nat) (s : vstate W),
  ∃ blocks s',
    for_each items acc (DeleteBackup.loop_body vc force) s
    = (Ok (acc + vfailures (concat blocks)), s') ∧
    Forall2 (backup_block force) items blocks ∧
    vtrace s' = vtrace s ++ concat blocks.
Proof.
  induction items as [|i items IH]; intros acc s.
  - exists [], s. simpl. unfold ret. rewrite Nat.add_0_r, app_nil_r.
    by repeat split.
  - destruct (DeleteBackup_loop_body vc force acc i s)
      as (blk & s1 & Hstep & Hblk & Htr1).
    destruct (IH (acc + vfailures blk) s1)
      as (blocks & s' & Hrun & Hbl & Htr).
    exists (blk :: blocks), s'. split; [|split].
    + simpl. unfold bind at 1. rewrite Hstep, Hrun.
      by rewrite vfailures_app, Nat.add_assoc.
    + by constructor.
    + rewrite Htr, Htr1. simpl. by rewrite app_assoc.
Qed.

Lemma network_block_attempt i blk :
  network_block i blk → nattempts blk = [i] ∧ blk ≠ [].
Proof. by destruct 1. Qed.

Lemma network_blocks_attempts items blocks :
  Forall2 network_block items blocks →
  nattempts (concat blocks) = items.
Proof.
  induction 1 as [|i blk items blocks Hb _ IH]; [done|].
  simpl. rewrite nattempts_app, IH.
  by destruct (network_block_attempt _ _ Hb) as [-> _].
Qed.

(** One iteration of the loop of [DeleteNetwork.take_action]. *)
Lemma DeleteNetwork_loop_body {W} (nc : NetworkClient W) i (s : nstate W) :
  ∃ out blk s',
    DeleteNetwork.loop_body nc () i s = (out, s') ∧
    network_block i blk ∧
    ntrace s' = ntrace s ++ blk ∧
    network_loop_end out blk.
Proof.
  unfold DeleteNetwork.loop_body, bind, call_find, call_delete_network.
  destruct (find nc "network" "networks" i (nworld s)) as [[_id|e] w]; simpl.
  - destruct (delete_network nc _id w) as [[[]|e] w'] eqn:Hd; simpl;
      eexists _, _, _; (split; [reflexivity|]);
      (split; [apply network_deleted|]); simpl;
      by rewrite <-app_assoc.
  - eexists _, _, _. split; [reflexivity|].
    split; [apply network_unresolved|]. done.
Qed.

(** The whole loop: blocks for a prefix of the identifiers, which is all
    of them unless a call failed. *)
Lemma DeleteNetwork_loop {W} (nc : NetworkClient W) items :
  ∀ s : nstate W,
  ∃ out k blocks s',
    for_each items () (DeleteNetwork.loop_body nc) s = (out, s') ∧
    Forall2 network_block (take k items) blocks ∧
    ntrace s' = ntrace s ++ concat blocks ∧
    network_loop_end out (concat blocks) ∧
    (is_ok out = true → k = length items).
Proof.
  induction items as [|i items IH]; intros s.
  - exists (Ok ()), 0, [], s. simpl. rewrite app_nil_r.
    repeat split; auto.
  - destruct (DeleteNetwork_loop_body nc i s)
      as (out1 & blk & s1 & Hstep & Hblk & Htr1 & Hend1).
    destruct out1 as [[]|e].
    + destruct (IH s1) as (out & k & blocks & s' & Hrun & Hbl & Htr & He & Hk).
      exists out, (S k), (blk :: blocks), s'.
      split; [|split; [|split; [|split]]].
      * simpl. unfold bind at 1. by rewrite Hstep.
      * by constructor.
      * rewrite Htr, Htr1. simpl. by rewrite app_assoc.
      * simpl. unfold network_loop_end in *. simpl in Hend1.
        rewrite nfailures_app, Hend1.
        destruct out as [|e]; [done|]. destruct He as [Hn Hl].
        split; [done|]. unfold nlast_error in *. rewrite last_app.
        destruct (last (concat blocks)); [done|discriminate].
      * intros Hok. simpl. by rewrite Hk.
    + exists (Raise e), 1, [blk], s1.
      split; [|split; [|split; [|split]]].
      * simpl. unfold bind at 1. by rewrite Hstep.
      * simpl. by repeat constructor.
      * simpl. by rewrite app_nil_r.
      * simpl. by rewrite app_nil_r.
      * done.
Qed.

(** ** Delete *)

(** The run of [DeleteBackup.take_action] from an empty trace, spelled
    out: one block per identifier, and the counter of the final test is
    the number of failed calls of the trace. *)
Lemma DeleteBackup_run {W} (vc : VolumeClient W) args (w : W) :
  ∃ blocks s',
    Forall2 (backup_block (DeleteBackup.force args))
            (DeleteBackup.backups args) blocks ∧
    vtrace s' = concat blocks ∧
    DeleteBackup.take_action vc args (VState w []) =
      (if decide (0 < vfailures (vtrace s')) then
         Raise (CommandError
                  (DeleteBackup.failed_msg (vfailures (vtrace s'))
                     (length (DeleteBackup.backups args))))
       else Ok (), s').
Proof.
  destruct (DeleteBackup_loop vc (DeleteBackup.force args)
              (DeleteBackup.backups args) 0 (VState w []))
    as (blocks & s' & Hrun & Hbl & Htr).
  simpl in Htr. exists blocks, s'. split; [done|]. split; [done|].
  unfold DeleteBackup.take_action, bind. rewrite Hrun, Htr. simpl.
  by destruct (decide (0 < vfailures (concat blocks))).
Qed.

(** One iteration of the loop of [DeleteNetwork.take_action], exactly:
    it returns after a lookup and a delete that both succeeded, or
    raises the error of the call that failed. *)
Lemma DeleteNetwork_loop_body_exact {W} (nc : NetworkClient W) i
    (s : nstate W) :
  ∃ blk s',
    ntrace s' = ntrace s ++ blk ∧
    ((DeleteNetwork.loop_body nc () i s = (Ok (), s') ∧ network_done i blk) ∨
     (∃ e, DeleteNetwork.loop_body nc () i s = (Raise e, s') ∧
           network_failed i e blk)).
Proof.
  unfold DeleteNetwork.loop_body, bind, call_find, call_delete_network.
  destruct (find nc "network" "networks" i (nworld s)) as [[_id|e] w]; simpl.
  - destruct (delete_network nc _id w) as [[[]|e] w']; simpl.
    + exists [EFind "network" "networks" i (Ok _id);
              EDeleteNetwork _id (Ok ())]. eexists.
      split; [|left; split; [reflexivity|by exists _id]].
      simpl. by rewrite <-app_assoc.
    + exists [EFind "network" "networks" i (Ok _id);
              EDeleteNetwork _id (Raise e)]. eexists.
      split; [|right; exists e; split; [reflexivity|right; by exists _id]].
      simpl. by rewrite <-app_assoc.
  - exists [EFind "network" "networks" i (Raise e)]. eexists.
    split; [|right; exists e; split; [reflexivity|by left]]. done.
Qed.

Lemma DeleteNetwork_loop_exact {W} (nc : NetworkClient W) items :
  ∀ s : nstate W,
  ∃ out s' tr,
    for_each items () (DeleteNetwork.loop_body nc) s = (out, s') ∧
    ntrace s' = ntrace s ++ tr ∧
    network_run_shape items out tr.
Proof.
  induction items as [|i items IH]; intros s.
  - exists (Ok ()), s, []. simpl. rewrite app_nil_r.
    split; [done|]. split; [done|]. exists []. by split.
  - destruct (DeleteNetwork_loop_body_exact nc i s)
      as (blk & s1 & Htr1 & [[Hstep Hdone]|(e & Hstep & Hfail)]).
    + destruct (IH s1) as (out & s' & tr & Hrun & Htr & Hshape).
      exists out, s', (blk ++ tr). split; [|split].
      * simpl. unfold bind at 1. by rewrite Hstep.
      * by rewrite Htr, Htr1, app_assoc.
      * destruct out as [[]|e]; simpl in *.
        -- destruct Hshape as (blocks & Hbl & ->).
           exists (blk :: blocks). split; [by constructor|done].
        -- destruct Hshape
             as (done_ids & j & rest & blocks & blk' & -> & Hbl & Hf & ->).
           exists (i :: done_ids), j, rest, (blk :: blocks), blk'.
           split; [done|]. split; [by constructor|]. split; [done|].
           simpl. by rewrite app_assoc.
    + exists (Raise e), s1, blk. split; [|split].
      * simpl. unfold bind at 1. by rewrite Hstep.
      * done.
      * exists [], i, items, [], blk. split; [done|].
        split; [constructor|]. by split.
Qed.

Lemma failed_blocks_count force items blocks :
  Forall2 (backup_block force) items blocks →
  length (failed_blocks blocks) = vfailures (concat blocks) ∧
  length (vdeleted (concat blocks)) + length (failed_blocks blocks)
    = length items.
Proof.
  unfold failed_blocks.
  induction 1 as [|i blk items blocks Hb _ [IH1 IH2]]; [done|].
  simpl. unfold vdeleted in *. rewrite vfailures_app, omap_app, length_app.
  destruct Hb.
  - rewrite filter_cons_False by (vm_compute; lia). simpl. split; lia.
  - rewrite filter_cons_True by (vm_compute; lia). simpl.
    change (vfailures [_; _; _]) with 1. split; lia.
  - rewrite filter_cons_True by (vm_compute; lia). simpl.
    change (vfailures [_; _]) with 1. split; lia.
Qed.

(** C6, as the code has it. [DeleteBackup] works through all the
    identifiers one after the other in the order given: its trace is one
    block per identifier (the lookup, then the delete of the ID found,
    then the log line if either failed), and no call for an identifier
    comes before the block of the previous one is complete.
    [DeleteNetwork] works through them in the same way only up to the
    first failure: when it returns, its trace is a lookup and a delete of
    the ID found for each identifier in order; when it raises [e], the
    trace is such blocks for the identifiers before some identifier, then
    the block of that identifier, which failed with [e], and nothing for
    the identifiers after it. *)
Theorem C6_delete_sequential :
  (∀ W (vc : VolumeClient W) (args : DeleteBackup.parsed_args) (w : W),
     sequential (backup_block (DeleteBackup.force args))
       (DeleteBackup.backups args)
       (vtrace (DeleteBackup.take_action vc args (VState w [])).2)) ∧
  (∀ W (nc : NetworkClient W) (args : DeleteNetwork.parsed_args) (w : W),
     let run := DeleteNetwork.take_action nc args (NState w []) in
     match run.1 with
     | Ok _ =>
         sequential network_done (DeleteNetwork.networks args)
           (ntrace run.2)
     | Raise e =>
         ∃ done_ids i rest blk,
           DeleteNetwork.networks args = done_ids ++ i :: rest ∧
           network_failed i e blk ∧
           ∃ tr, sequential network_done done_ids tr ∧
                 ntrace run.2 = tr ++ blk
     end).
Proof.
  split.
  - intros W vc args w.
    destruct (DeleteBackup_run vc args w) as (blocks & s' & Hbl & Htr & ->).
    simpl. by exists blocks.
  - intros W nc args w. simpl. unfold DeleteNetwork.take_action.
    destruct (DeleteNetwork_loop_exact nc (DeleteNetwork.networks args)
                (NState w []))
      as (out & s' & tr & -> & Htr & Hshape).
    simpl in *. subst tr. destruct out as [[]|e]; simpl in Hshape.
    + exact Hshape.
    + destruct Hshape
        as (done_ids & i & rest & blocks & blk & Hitems & Hbl & Hf & ->).
      exists done_ids, i, rest, blk. split; [done|]. split; [done|].
      exists (concat blocks). split; [by exists blocks|done].
Qed.

(** C6 fails for [DeleteNetwork] as soon as an identifier fails: of the
    networks [n1] and [n2], where [n1] does not exist, the only call is
    the lookup of [n1]; [n2] is never processed, so the trace is not a
    block per identifier. *)
Lemma C6_delete_network_leaves_the_rest :
  let args := {| DeleteNetwork.networks := ["n1"; "n2"] |} in
  let w := {| Fakes.existing_networks := ["n2"];
              Fakes.record_reply := ∅; Fakes.listing_reply := ∅ |} in
  let run := DeleteNetwork.take_action Fakes.network_client args
               (NState w []) in
  ntrace run.2 =
    [EFind "network" "networks" "n1"
       (Raise (CommandError "No network with a name or ID of 'n1' found"))] ∧
  (sequential network_block (DeleteNetwork.networks args) (ntrace run.2)
   → False).
Proof.
  split; [by vm_compute|].
  intros (blocks & Hbl & Htr).
  apply network_blocks_attempts in Hbl. rewrite <-Htr in Hbl.
  vm_compute in Hbl. discriminate.
Qed.

(** C1, as the code has it. [DeleteBackup] makes one attempt per
    identifier, in order: the lookup, and the delete of the ID found
    when the lookup succeeds. With F the number of identifiers whose
    attempt failed and N the number of identifiers, the other N - F
    backups are deleted, and the command raises [CommandError] exactly
    when F > 0, with the message "F of N backups failed to delete.".
    [DeleteNetwork] has no handler around an item: it returns only when
    every identifier was resolved and deleted, and otherwise ends on the
    first call that fails and lets the error of that call out, with the
    identifiers before it resolved and deleted and those after it not
    attempted. *)
Theorem C1_delete_partial_failure :
  (∀ W (vc : VolumeClient W) (args : DeleteBackup.parsed_args) (w : W),
     let run := DeleteBackup.take_action vc args (VState w []) in
     ∃ blocks,
       Forall2 (backup_block (DeleteBackup.force args))
               (DeleteBackup.backups args) blocks ∧
       vtrace run.2 = concat blocks ∧
       let F := length (failed_blocks blocks) in
       let N := length (DeleteBackup.backups args) in
       length (vdeleted (vtrace run.2)) + F = N ∧
       delete_contract (DeleteBackup.backups args)
         (vattempts (vtrace run.2)) F run.1 ∧
       (0 < F →
        run.1 = Raise (CommandError
                  (str_nat F +:+ " of " +:+ str_nat N +:+
                   " backups failed to delete.")))) ∧
  (∀ W (nc : NetworkClient W) (args : DeleteNetwork.parsed_args) (w : W),
     let run := DeleteNetwork.take_action nc args (NState w []) in
     network_run_shape (DeleteNetwork.networks args) run.1 (ntrace run.2) ∧
     ∃ k,
       nattempts (ntrace run.2) = take k (DeleteNetwork.networks args) ∧
       match run.1 with
       | Ok _ =>
           nfailures (ntrace run.2) = 0 ∧
           k = length (DeleteNetwork.networks args)
       | Raise e =>
           nfailures (ntrace run.2) = 1 ∧
           nlast_error (ntrace run.2) = Some e
       end).
Proof.
  split.
  - intros W vc args w.
    destruct (DeleteBackup_run vc args w) as (blocks & s' & Hbl & Htr & Hrun).
    simpl. rewrite Hrun. simpl. exists blocks.
    split; [done|]. split; [done|].
    destruct (failed_blocks_count _ _ _ Hbl) as [HF Hdel].
    rewrite Htr. split; [exact Hdel|]. rewrite HF.
    assert (Hmsg : 0 < vfailures (concat blocks) →
      (if decide (0 < vfailures (concat blocks)) then
         Raise (CommandError
                  (DeleteBackup.failed_msg (vfailures (concat blocks))
                     (length (DeleteBackup.backups args))))
       else Ok ()) =
      Raise (CommandError
               (str_nat (vfailures (concat blocks)) +:+ " of " +:+
                str_nat (length (DeleteBackup.backups args)) +:+
                " backups failed to delete."))).
    { intros Hpos. by destruct (decide (0 < vfailures (concat blocks))). }
    split; [|exact Hmsg]. unfold delete_contract. split; [|split].
    + by eapply backup_blocks_attempts.
    + intros Hzero.
      destruct (decide (0 < vfailures (concat blocks))); [lia|done].
    + intros Hpos. eexists. split; [by apply Hmsg|]. split.
      * apply (contains_app "").
      * rewrite <-string_app_assoc. apply contains_app.
  - intros W nc args w. simpl. split.
    + unfold DeleteNetwork.take_action.
      destruct (DeleteNetwork_loop_exact nc (DeleteNetwork.networks args)
                  (NState w []))
        as (out & s' & tr & -> & Htr & Hshape).
      simpl in *. by subst tr.
    + unfold DeleteNetwork.take_action.
      destruct (DeleteNetwork_loop nc (DeleteNetwork.networks args)
                  (NState w []))
        as (out & k & blocks & s' & -> & Hbl & Htr & Hend & Hk).
      simpl in *. exists k. rewrite Htr. split.
      * by eapply network_blocks_attempts.
      * destruct out as [[]|e]; [|done]. split; [done|by apply Hk].
Qed.

(** C1 fails for [DeleteNetwork]: of the networks [n1] and [n2], where
    only [n2] exists, the command looks up [n1], raises the error of that
    lookup and never attempts [n2], which is still there afterwards. *)
Lemma C1_delete_network_stops_at_first_failure :
  let args := {| DeleteNetwork.networks := ["n1"; "n2"] |} in
  let w := {| Fakes.existing_networks := ["n2"];
              Fakes.record_reply := ∅; Fakes.listing_reply := ∅ |} in
  let run := DeleteNetwork.take_action Fakes.network_client args
               (NState w []) in
  nattempts (ntrace run.2) = ["n1"] ∧
  Fakes.existing_networks (nworld run.2) = ["n2"] ∧
  ¬ delete_contract (DeleteNetwork.networks args)
      (nattempts (ntrace run.2)) (nfailures (ntrace run.2)) run.1.
Proof.
  split; [by vm_compute|]. split; [by vm_compute|].
  intros [Hall _]. vm_compute in Hall. discriminate.
Qed.

(** The scenario [delete-backup b1 b2 b3] where [b2] does not resolve:
    all three are attempted, [b1] and [b3] are deleted, and the command
    raises "1 of 3 backups failed to delete.". *)
Lemma C1_delete_b1_b2_b3 :
  let args := {| DeleteBackup.backups := ["b1"; "b2"; "b3"];
                 DeleteBackup.force := false |} in
  let w := {| Fakes.existing_backups := ["b1"; "b3"];
              Fakes.volumes_reply := Ok [] |} in
  let run := DeleteBackup.take_action Fakes.volume_client args
               (VState w []) in
  vattempts (vtrace run.2) = ["b1"; "b2"; "b3"] ∧
  vdeleted (vtrace run.2) = ["b1"; "b3"] ∧
  run.1 = Raise (CommandError "1 of 3 backups failed to delete.").
Proof.
  intros args w run.
  destruct C1_delete_partial_failure as [Hbackup _].
  destruct (Hbackup _ Fakes.volume_client args w)
    as (blocks & Hbl & Htr & _ & [Hall _] & Hmsg).
  split; [exact Hall|]. split; [by vm_compute|].
  destruct (failed_blocks_count _ _ _ Hbl) as [HF _].
  fold run in Htr, Hmsg. rewrite HF, <-Htr in Hmsg.
  rewrite Hmsg; [by vm_compute|vm_compute; lia].
Defined.

(** ** Create: the request body *)

Lemma dom_create_kwargs args snapshot_id :
  dom (CreateBackup.create_kwargs args snapshot_id) =
  {["container"; "name"; "description"; "force"; "incremental";
    "snapshot_id"]}.
Proof.
  unfold CreateBackup.create_kwargs.
  rewrite !dom_insert_L, dom_empty_L. set_solver.
Qed.

(** The only create call of [CreateBackup] carries the keyword arguments
    of [create_kwargs]. *)
Lemma CreateBackup_creates {W} (vc : VolumeClient W) args (w : W) x :
  x ∈ creates (vtrace (CreateBackup.take_action vc args (VState w [])).2) →
  ∃ snapshot_id,
    x.2 = CreateBackup.create_kwargs args snapshot_id ∧
    (truthy_str (CreateBackup.snapshot args) = false → snapshot_id = None).
Proof.
  unfold CreateBackup.take_action, bind, call_find_resource,
    call_backups_create, ret. simpl.
  destruct (find_resource vc Volumes _ w) as [[vol|e] w1]; simpl;
    [|by intros ?%elem_of_nil].
  destruct (truthy_str (CreateBackup.snapshot args)) eqn:Hsnap; simpl.
  - destruct (find_resource vc VolumeSnapshots _ w1) as [[snap|e] w2]; simpl;
      [|by intros ?%elem_of_nil].
    destruct (backups_create vc _ _ w2) as [[b|e] w3]; simpl;
      intros ->%list_elem_of_singleton; by eexists.
  - destruct (backups_create vc _ _ w1) as [[b|e] w3]; simpl;
      intros ->%list_elem_of_singleton; by eexists.
Qed.

(** C2, as the code has it. The body that [CreateNetwork] sends is
    [{'network': b}] where [b] has the required keys [name] and
    [admin_state_up], and [shared] exactly when [--share] or [--no-share]
    was given. [CreateBackup] passes all six keyword arguments on every
    call, the unset ones as [None] or [False]. *)
Theorem C2_create_request_body :
  (∀ W (nc : NetworkClient W) (args : CreateNetwork.parsed_args) (w : W),
     ∃ b,
       ntrace (CreateNetwork.take_action nc args (NState w [])).2 =
         [ECreateNetwork {["network" := b]}] ∧
       dom b = CreateNetwork_keys args ∧
       b !! "name" = Some (VStr (CreateNetwork.name args)) ∧
       b !! "admin_state_up" =
         Some (of_opt_bool (CreateNetwork.admin_state args)) ∧
       b !! "shared" = VBool <$> CreateNetwork.shared args) ∧
  (∀ W (vc : VolumeClient W) (args : CreateBackup.parsed_args) (w : W)
     volume_id kwargs,
     (volume_id, kwargs) ∈
       creates (vtrace (CreateBackup.take_action vc args (VState w [])).2) →
     dom kwargs =
       {["container"; "name"; "description"; "force"; "incremental";
         "snapshot_id"]} ∧
     kwargs !! "container" = Some (of_opt_str (CreateBackup.container args)) ∧
     kwargs !! "name" = Some (of_opt_str (CreateBackup.name args)) ∧
     kwargs !! "description" =
       Some (of_opt_str (CreateBackup.description args)) ∧
     kwargs !! "force" = Some (VBool (CreateBackup.force args)) ∧
     kwargs !! "incremental" = Some (VBool (CreateBackup.incremental args)) ∧
     (truthy_str (CreateBackup.snapshot args) = false →
      kwargs !! "snapshot_id" = Some VNone)).
Proof.
  split.
  - intros W nc args w.
    unfold CreateNetwork.take_action, CreateNetwork.get_body,
      CreateNetwork_keys.
    eexists. split.
    + unfold bind, call_create_network. simpl.
      destruct (create_network nc _ w) as [[resp|e] w1]; simpl;
        [|reflexivity].
      unfold subscript. by destruct (resp !! "network").
    + destruct (CreateNetwork.shared args) as [sh|]; simpl;
        rewrite ?dom_insert_L, ?dom_empty_L;
        (split; [set_solver|]); by simplify_map_eq.
  - intros W vc args w volume_id kwargs Hin.
    destruct (CreateBackup_creates vc args w _ Hin) as (sid & Hkw & Hsid).
    simpl in Hkw. subst kwargs.
    split; [apply dom_create_kwargs|].
    unfold CreateBackup.create_kwargs.
    repeat split; try by simplify_map_eq.
    intros Hs. rewrite (Hsid Hs). by simplify_map_eq.
Qed.

(** C2 fails for [CreateBackup]: with the volume alone on the command
    line, the create call still carries the key [container], with the
    value [None], and so for the other flags; the keys of the call are not
    those of the flags that were set (there are none). *)
Lemma C2_create_backup_passes_unset_flags :
  let args := {| CreateBackup.volume := "vol1";
                 CreateBackup.name := None;
                 CreateBackup.description := None;
                 CreateBackup.container := None;
                 CreateBackup.snapshot := None;
                 CreateBackup.force := false;
                 CreateBackup.incremental := false |} in
  let w := {| Fakes.existing_backups := [];
              Fakes.volumes_reply := Ok [] |} in
  let run := CreateBackup.take_action Fakes.volume_client args
               (VState w []) in
  ∃ kwargs,
    creates (vtrace run.2) = [("vol1", kwargs)] ∧
    kwargs !! "container" = Some VNone ∧
    CreateBackup_keys args = ∅ ∧
    dom kwargs ≠ CreateBackup_keys args.
Proof.
  intros args w run.
  exists (CreateBackup.create_kwargs args None).
  assert (Hkeys : CreateBackup_keys args = ∅) by done.
  split; [by vm_compute|]. split; [by vm_compute|]. split; [done|].
  rewrite dom_create_kwargs, Hkeys. intros Heq.
  apply (not_elem_of_empty (C := gset string) "container").
  rewrite <-Heq, !elem_of_union, !elem_of_singleton. tauto.
Qed.

(** ** Set *)

(** The body that [SetNetwork] builds holds the fields that the user set,
    and nothing else. *)
Lemma build_body_fields args k v :
  SetNetwork.build_body args !! k = Some v ↔ (k, v) ∈ SetNetwork_fields args.
Proof.
  unfold SetNetwork.build_body, SetNetwork_fields.
  destruct (SetNetwork.name args) as [n|],
           (SetNetwork.admin_state args) as [a|],
           (SetNetwork.shared args) as [sh|]; simpl;
    rewrite ?lookup_insert_Some, ?lookup_empty, ?list_elem_of_In; simpl;
    intuition (simplify_eq; auto; congruence).
Qed.

Lemma build_body_empty args :
  SetNetwork.build_body args = ∅ ↔
  SetNetwork.name args = None ∧ SetNetwork.admin_state args = None ∧
  SetNetwork.shared args = None.
Proof.
  unfold SetNetwork.build_body.
  destruct (SetNetwork.name args) as [n|],
           (SetNetwork.admin_state args) as [a|],
           (SetNetwork.shared args) as [sh|]; simpl;
    split; try done; try (by intros (? & ? & ?));
    intros H; by apply insert_non_empty in H.
Qed.

(** C3, as the code has it. [SetNetwork] resolves the identifier first.
    When the lookup fails its error is the one raised, whatever the flags,
    and no update call is issued. When it succeeds: with no field flag
    the command raises [CommandError "Nothing specified to be set"] and
    issues no update call; with at least one, it issues exactly one update
    call, for the ID found, with the body [{'network': b}] where [b] holds
    exactly the fields that were set, and returns what that call does. *)
Theorem C3_set_network :
  ∀ W (nc : NetworkClient W) (args : SetNetwork.parsed_args) (w : W),
    let run := SetNetwork.take_action nc args (NState w []) in
    let found :=
      find nc "network" "networks" (SetNetwork.identifier args) w in
    (∀ e, found.1 = Raise e →
       run.1 = Raise e ∧ updates (ntrace run.2) = []) ∧
    (∀ _id, found.1 = Ok _id →
       SetNetwork.name args = None ∧ SetNetwork.admin_state args = None ∧
       SetNetwork.shared args = None →
       run.1 = Raise (CommandError "Nothing specified to be set") ∧
       updates (ntrace run.2) = []) ∧
    (∀ _id, found.1 = Ok _id →
       ¬ (SetNetwork.name args = None ∧ SetNetwork.admin_state args = None ∧
          SetNetwork.shared args = None) →
       ∃ b,
         updates (ntrace run.2) = [(_id, {["network" := b]})] ∧
         (∀ k v, b !! k = Some v ↔ (k, v) ∈ SetNetwork_fields args) ∧
         run.1 = (update_network nc _id {["network" := b]} found.2).1).
Proof.
  intros W nc args w. simpl.
  unfold SetNetwork.take_action, bind, call_find, call_update_network.
  simpl.
  destruct (find nc "network" "networks" (SetNetwork.identifier args) w)
    as [[_id|e] w1]; simpl.
  - split; [done|]. split.
    + intros ? [= <-] Hnone. apply build_body_empty in Hnone.
      by destruct (decide (SetNetwork.build_body args = ∅)).
    + intros ? [= <-] Hsome.
      destruct (decide (SetNetwork.build_body args = ∅)) as [He|_].
      { by apply build_body_empty in He. }
      exists (SetNetwork.build_body args). simpl.
      destruct (update_network nc _id _ w1) as [r w2]. simpl.
      split; [done|]. split; [|done]. apply build_body_fields.
  - split; [by intros ? [= <-]|]. split; by intros.
Qed.

(** The scenario [set-network net1] with no flags, on a service where
    [net1] exists: "Nothing specified to be set", and no update call. *)
Lemma C3_set_net1_no_flags :
  let args := {| SetNetwork.identifier := "net1";
                 SetNetwork.name := None;
                 SetNetwork.admin_state := None;
                 SetNetwork.shared := None |} in
  let w := {| Fakes.existing_networks := ["net1"];
              Fakes.record_reply := ∅; Fakes.listing_reply := ∅ |} in
  let run := SetNetwork.take_action Fakes.network_client args
               (NState w []) in
  run.1 = Raise (CommandError "Nothing specified to be set") ∧
  updates (ntrace run.2) = [].
Proof.
  intros args w run.
  destruct (C3_set_network _ Fakes.network_client args w) as (_ & Hnone & _).
  apply (Hnone "net1"); [by vm_compute|done].
Defined.

(** C3 fails when the identifier does not resolve: with no flag at all,
    the error raised is the one of the lookup, not "Nothing specified to
    be set". *)
Lemma C3_set_unknown_network_no_flags :
  let args := {| SetNetwork.identifier := "ghost";
                 SetNetwork.name := None;
                 SetNetwork.admin_state := None;
                 SetNetwork.shared := None |} in
  let w := {| Fakes.existing_networks := ["net1"];
              Fakes.record_reply := ∅; Fakes.listing_reply := ∅ |} in
  let run := SetNetwork.take_action Fakes.network_client args
               (NState w []) in
  run.1 = Raise (CommandError "No network with a name or ID of 'ghost' found")
  ∧ run.1 ≠ Raise (CommandError "Nothing specified to be set").
Proof. split; [by vm_compute|]. vm_compute. discriminate. Qed.

(** With a flag and an identifier that does not resolve, no update call
    is issued either. *)
Lemma set_unknown_network_with_flag :
  let args := {| SetNetwork.identifier := "ghost";
                 SetNetwork.name := Some "new";
                 SetNetwork.admin_state := None;
                 SetNetwork.shared := None |} in
  let w := {| Fakes.existing_networks := ["net1"];
              Fakes.record_reply := ∅; Fakes.listing_reply := ∅ |} in
  updates (ntrace (SetNetwork.take_action Fakes.network_client args
                     (NState w [])).2) = [].
Proof. by vm_compute. Qed.

(** ** Show and Create: the output *)

Lemma dom_filters {W} (nc : NetworkClient W) (d : record) k :
  is_Some (filters nc d !! k) ↔ is_Some (d !! k).
Proof.
  unfold filters. destruct (d !! "subnets") as [subnets|] eqn:Hs; [|done].
  destruct (decide (k = "subnets")) as [->|Hne].
  - rewrite lookup_insert_eq, Hs. split; eauto.
  - by rewrite lookup_insert_ne.
Qed.

(** [filters] changes the value of [subnets] and nothing else. *)
Lemma lookup_filters {W} (nc : NetworkClient W) (d : record) k :
  filters nc d !! k =
  if decide (k = "subnets") then format_list nc <$> d !! k else d !! k.
Proof.
  unfold filters. destruct (decide (k = "subnets")) as [->|Hne].
  - destruct (d !! "subnets") as [subnets|] eqn:Hs; simpl.
    + by rewrite lookup_insert_eq.
    + by rewrite Hs.
  - destruct (d !! "subnets"); [|done]. by rewrite lookup_insert_ne.
Qed.





(** ** List: the columns *)

(** A run of [ListBackup]: the headers depend on [--long] alone, and a
    failure of [volumes.list()] leaves the cache empty and the command
    running. *)
Lemma ListBackup_run {W} (vc : VolumeClient W) args (w : W) :
  let vols := volumes_list vc w in
  let volume_cache :=
    match vols.1 with
    | Ok l => ListBackup.cache_volumes l
    | Raise _ => ∅
    end in
  let data := backups_list vc vols.2 in
  ListBackup.take_action vc args (VState w []) =
    (match data.1 with
     | Ok l =>
         Ok (ListBackup.column_headers args,
             (λ s, get_item_properties s (ListBackup.columns args)
                     {["Volume ID" :=
                         ListBackup._format_volume_id volume_cache]}) <$> l)
     | Raise e => Raise e
     end,
     VState data.2 [EVolumesList; EBackupsList]).
Proof.
  unfold ListBackup.take_action, bind, try_except, call_volumes_list,
    call_backups_list, ret. simpl.
  destruct (volumes_list vc w) as [[l|e] w1]; simpl;
    destruct (backups_list vc w1) as [[d|e'] w2]; reflexivity.
Qed.

(** A run of [ListNetwork]: one listing call, chosen by [--dhcp], and
    columns read off the first record of the answer. *)
Lemma ListNetwork_run {W} (nc : NetworkClient W) args (w : W) :
  let by_agent := truthy_str (ListNetwork.dhcp args) in
  let report_filter : record :=
    if by_agent then {["dhcp_agent" := of_opt_str (ListNetwork.dhcp args)]}
    else if ListNetwork.external args then {["router:external" := VBool true]}
    else ∅ in
  let key := if by_agent then "networks_on_dhcp_agent" else "networks" in
  let answer :=
    if by_agent then list_networks_on_dhcp_agent nc report_filter w
    else list_networks nc report_filter w in
  let requested :=
    match ListNetwork.columns args with
    | [] => ["id"; "name"; "subnets"]
    | _ => ListNetwork.columns args
    end in
  ListNetwork.take_action nc args (NState w []) =
    (match answer.1 with
     | Ok resp =>
         match resp !! key with
         | Some data =>
             let cols :=
               if negb (ListNetwork.long args) && negb by_agent
               then filter (λ x, x ∈ ListNetwork.first_keys data) requested
               else ListNetwork.first_keys data in
             Ok (cols,
                 (λ s, get_dict_properties s cols
                         {["subnets" := format_list nc]}) <$> data)
         | None => Raise (KeyError key)
         end
     | Raise e => Raise e
     end,
     NState answer.2
       [if by_agent then EListNetworksOnDhcpAgent report_filter
        else EListNetworks report_filter]).
Proof.
  unfold ListNetwork.take_action, bind, call_list_networks,
    call_list_networks_on_dhcp_agent, subscript, ret, raise. simpl.
  destruct (truthy_str (ListNetwork.dhcp args)); simpl.
  - destruct (list_networks_on_dhcp_agent nc _ w) as [[resp|e] w1]; simpl;
      [|done].
    by destruct (resp !! "networks_on_dhcp_agent").
  - destruct (list_networks nc _ w) as [[resp|e] w1]; simpl; [|done].
    by destruct (resp !! "networks").
Qed.

(** C5, as the code has it. The headers of [ListBackup] are a function
    of [--long]: five names without it, and with it the same five followed
    by three more, the column [Volume ID] under the header [Volume]. The
    columns of [ListNetwork] are read off the answer of the service: with
    [--long] (or a DHCP agent) the keys of the first record in increasing
    order, and otherwise the requested columns (by default [id], [name],
    [subnets]) that are keys of the first record; with no record, none. *)
Theorem C5_list_columns :
  (∀ W (vc : VolumeClient W) (args : ListBackup.parsed_args) (w : W)
     headers rows,
     (ListBackup.take_action vc args (VState w [])).1 = Ok (headers, rows) →
     headers =
       (if ListBackup.long args then
          ["ID"; "Name"; "Description"; "Status"; "Size";
           "Availability Zone"; "Volume"; "Container"]
        else ["ID"; "Name"; "Description"; "Status"; "Size"]) ∧
     (ListBackup.long args = true →
      ListBackup.columns args !! 6 = Some "Volume ID" ∧
      headers !! 6 = Some "Volume")) ∧
  (∀ W (nc : NetworkClient W) (args : ListNetwork.parsed_args) (w w1 : W)
     resp data,
     truthy_str (ListNetwork.dhcp args) = false →
     list_networks nc
       (if ListNetwork.external args then {["router:external" := VBool true]}
        else ∅) w = (Ok resp, w1) →
     resp !! "networks" = Some data →
     ∃ rows,
       (ListNetwork.take_action nc args (NState w [])).1
         = Ok (if ListNetwork.long args then ListNetwork.first_keys data
               else filter (λ x, x ∈ ListNetwork.first_keys data)
                      (match ListNetwork.columns args with
                       | [] => ["id"; "name"; "subnets"]
                       | _ => ListNetwork.columns args
                       end),
               rows) ∧
       length rows = length data ∧
       ListNetwork.first_keys data =
         match data with [] => [] | d :: _ => sorted_keys d end).
Proof.
  split.
  - intros W vc args w headers rows. rewrite ListBackup_run. simpl.
    destruct (backups_list vc _).1; [|done]. intros [= <- _].
    unfold ListBackup.column_headers, ListBackup.columns.
    by destruct (ListBackup.long args).
  - intros W nc args w w1 resp data Hd Hl Hr.
    rewrite ListNetwork_run. simpl. rewrite Hd. simpl. rewrite Hl. simpl.
    rewrite Hr.
    destruct (ListNetwork.long args); simpl;
      (eexists; split; [reflexivity|]; split;
       [by rewrite length_fmap|by destruct data]).
Qed.

(** [network list] without flags on a service with one network whose
    record has an [id] and a [name] but no [subnets]: two columns. *)
Lemma C5_list_networks_default :
  let args := {| ListNetwork.external := false; ListNetwork.dhcp := None;
                 ListNetwork.long := false; ListNetwork.columns := [] |} in
  let w := {| Fakes.existing_networks := ["net1"];
              Fakes.record_reply := ∅;
              Fakes.listing_reply :=
                {["networks" :=
                    [ {["name" := VStr "net1"; "id" := VStr "net1"]} ] ]} |} in
  (ListNetwork.take_action Fakes.network_client args (NState w [])).1
    = Ok (["id"; "name"], [[VStr "net1"; VStr "net1"]]).
Proof.
  intros args w.
  destruct C5_list_columns as [_ Hnet].
  destruct (Hnet _ Fakes.network_client args w w
              (Fakes.listing_reply w)
              [ {["name" := VStr "net1"; "id" := VStr "net1"]} ])
    as (rows & Hrun & _); [done|done|by vm_compute|].
  rewrite Hrun. by vm_compute in Hrun |- *.
Defined.

(** C5 fails for [ListNetwork]: with the same flags (none), the columns
    differ with the answer of the service, and they are not the default
    subset [id], [name], [subnets]; with [--long] they are the keys of the
    first record, which need not include the default ones. *)
Lemma C5_list_network_columns_depend_on_data :
  let args := {| ListNetwork.external := false; ListNetwork.dhcp := None;
                 ListNetwork.long := false; ListNetwork.columns := [] |} in
  let long_args :=
    {| ListNetwork.external := false; ListNetwork.dhcp := None;
       ListNetwork.long := true; ListNetwork.columns := [] |} in
  let w1 := {| Fakes.existing_networks := [];
               Fakes.record_reply := ∅;
               Fakes.listing_reply := {["networks" := []]} |} in
  let w2 := {| Fakes.existing_networks := ["net1"];
               Fakes.record_reply := ∅;
               Fakes.listing_reply :=
                 {["networks" :=
                     [ {["name" := VStr "net1"; "id" := VStr "net1";
                         "status" := VStr "ACTIVE"]} ] ]} |} in
  (ListNetwork.take_action Fakes.network_client args (NState w1 [])).1
    = Ok ([], []) ∧
  (ListNetwork.take_action Fakes.network_client args (NState w2 [])).1
    = Ok (["id"; "name"], [[VStr "net1"; VStr "net1"]]) ∧
  (ListNetwork.take_action Fakes.network_client long_args (NState w2 [])).1
    = Ok (["id"; "name"; "status"],
          [[VStr "net1"; VStr "net1"; VStr "ACTIVE"]]).
Proof. by vm_compute. Qed.

(** C9, as the code has it. When [--dhcp] carries a non-empty agent ID,
    [ListNetwork] issues one call, [list_networks_on_dhcp_agent] with the
    filter [dhcp_agent] alone, and neither [--external] nor [--long] (nor
    the requested columns) changes the run; the columns are the keys of
    the first record of the answer in increasing order, and there are
    none when the answer has no record. *)
Theorem C9_list_on_dhcp_agent :
  ∀ W (nc : NetworkClient W) (args : ListNetwork.parsed_args) (w : W) agent,
    ListNetwork.dhcp args = Some agent →
    agent ≠ "" →
    let run := ListNetwork.take_action nc args (NState w []) in
    let report_filter : record := {["dhcp_agent" := VStr agent]} in
    ntrace run.2 = [EListNetworksOnDhcpAgent report_filter] ∧
    (∀ external long columns,
       ListNetwork.take_action nc
         {| ListNetwork.external := external; ListNetwork.dhcp := Some agent;
            ListNetwork.long := long; ListNetwork.columns := columns |}
         (NState w []) = run) ∧
    (∀ resp w1 data,
       list_networks_on_dhcp_agent nc report_filter w = (Ok resp, w1) →
       resp !! "networks_on_dhcp_agent" = Some data →
       ∃ rows,
         run.1 = Ok (match data with
                     | [] => []
                     | d :: _ => sorted_keys d
                     end, rows) ∧
         length rows = length data).
Proof.
  intros W nc args w agent Hdhcp Hne. simpl.
  assert (Htruthy : truthy_str (Some agent) = true).
  { simpl. by destruct (String.eqb_spec agent ""). }
  split; [|split].
  - rewrite ListNetwork_run. simpl. rewrite Hdhcp, Htruthy. reflexivity.
  - intros external long columns. rewrite !ListNetwork_run. simpl.
    rewrite Hdhcp, Htruthy. simpl in Htruthy. rewrite Htruthy. simpl.
    rewrite !andb_false_r. reflexivity.
  - intros resp w1 data Hl Hr. rewrite ListNetwork_run. simpl.
    rewrite Hdhcp, Htruthy. simpl. rewrite Hl. simpl. rewrite Hr.
    rewrite andb_false_r. eexists. split; [by destruct data|].
    by rewrite length_fmap.
Qed.

(** [network list --dhcp agent1 --external --long] on the fake service:
    the one call carries the agent alone. *)
Lemma C9_list_on_agent1 :
  let args := {| ListNetwork.external := true;
                 ListNetwork.dhcp := Some "agent1";
                 ListNetwork.long := true; ListNetwork.columns := [] |} in
  let w := {| Fakes.existing_networks := [];
              Fakes.record_reply := ∅;
              Fakes.listing_reply := {["networks_on_dhcp_agent" := []]} |} in
  ntrace (ListNetwork.take_action Fakes.network_client args
            (NState w [])).2
    = [EListNetworksOnDhcpAgent {["dhcp_agent" := VStr "agent1"]}].
Proof.
  intros args w.
  by destruct (C9_list_on_dhcp_agent _ Fakes.network_client args w "agent1")
    as [Htrace _].
Defined.

(** C9 fails when the value of [--dhcp] is the empty string: the test
    [if parsed_args.dhcp] takes it for no agent, the call is
    [list_networks], and [--external] sets its filter. *)
Lemma C9_list_on_empty_agent :
  let args := {| ListNetwork.external := true;
                 ListNetwork.dhcp := Some "";
                 ListNetwork.long := false; ListNetwork.columns := [] |} in
  let w := {| Fakes.existing_networks := [];
              Fakes.record_reply := ∅;
              Fakes.listing_reply := {["networks" := []]} |} in
  ntrace (ListNetwork.take_action Fakes.network_client args
            (NState w [])).2
    = [EListNetworks {["router:external" := VBool true]}].
Proof. by vm_compute. Qed.

(** ** CreateNetwork on an empty answer *)

(** C8, as the code has it. When the answer of the create call has the
    key [network] with [None] or an empty record under it, [CreateNetwork]
    returns the one pair of the empty key and the empty string. When the
    answer has no key [network], the subscript raises [KeyError]. *)
Theorem C8_create_network_empty_record :
  ∀ W (nc : NetworkClient W) (args : CreateNetwork.parsed_args) (w w1 : W)
    resp,
    create_network nc (CreateNetwork.get_body args) w = (Ok resp, w1) →
    let run := CreateNetwork.take_action nc args (NState w []) in
    (resp !! "network" = Some None ∨ resp !! "network" = Some (Some ∅) →
     run.1 = Ok (ZPair [""] [VStr ""])) ∧
    (resp !! "network" = None → run.1 = Raise (KeyError "network")).
Proof.
  intros W nc args w w1 resp Hc. simpl.
  unfold CreateNetwork.take_action, bind, call_create_network, subscript,
    ret, raise. simpl. rewrite Hc. simpl.
  split.
  - intros [-> | ->]; simpl; [by vm_compute|].
    destruct (decide (∅ = ∅)) as [_|Hne]; by vm_compute.
  - by intros ->.
Qed.

(** [network create net1] on a service that answers
    [{'network': None}]. *)
Lemma C8_create_network_null :
  let args := {| CreateNetwork.name := "net1";
                 CreateNetwork.admin_state := Some true;
                 CreateNetwork.shared := None |} in
  let w := {| Fakes.existing_networks := [];
              Fakes.record_reply := {["network" := None]};
              Fakes.listing_reply := ∅ |} in
  (CreateNetwork.take_action Fakes.network_client args (NState w [])).1
    = Ok (ZPair [""] [VStr ""]).
Proof.
  intros args w.
  destruct (C8_create_network_empty_record _ Fakes.network_client args w w
              (Fakes.record_reply w)) as [Hempty _]; [done|].
  apply Hempty. left. by vm_compute.
Defined.

(** C8 fails for an answer without the key [network]: the command
    raises [KeyError]. *)
Lemma C8_create_network_missing_key :
  let args := {| CreateNetwork.name := "net1";
                 CreateNetwork.admin_state := Some true;
                 CreateNetwork.shared := None |} in
  let w := {| Fakes.existing_networks := [];
              Fakes.record_reply := ∅;
              Fakes.listing_reply := ∅ |} in
  (CreateNetwork.take_action Fakes.network_client args (NState w [])).1
    = Raise (KeyError "network").
Proof. by vm_compute. Qed.

(** ** ListBackup: the volume cache *)

(** The cache maps an ID to the last volume of the listing with that
    ID. *)
Lemma cache_volumes_lookup (vols : list resource) (vid : string) :
  ListBackup.cache_volumes vols !! vid =
  last (filter (λ s, id s = vid) vols).
Proof.
  unfold ListBackup.cache_volumes.
  induction vols as [|s vols IH] using rev_ind; [done|].
  rewrite foldl_snoc, filter_app, last_app.
  destruct (decide (id s = vid)) as [Heq|Hne].
  - rewrite Heq, lookup_insert_eq.
    rewrite filter_cons_True, filter_nil by done. done.
  - rewrite lookup_insert_ne by done.
    rewrite filter_cons_False, filter_nil by done. simpl. exact IH.
Qed.

Lemma get_item_properties_lookup item fields formatters i field :
  fields !! i = Some field →
  get_item_properties item fields formatters !! i =
  Some (match formatters !! field with
        | Some f => f (getattr_default item (field_name field))
        | None => getattr_default item (field_name field)
        end).
Proof.
  intros Hf. unfold get_item_properties. by rewrite list_lookup_fmap, Hf.
Qed.

(** C10. [ListBackup] fails only when [backups.list()] does: whatever
    [volumes.list()] does, a successful [backups.list()] gives the
    headers and one row per backup; a failed [volumes.list()] only leaves
    the cache empty. With [--long] the seventh header is [Volume], and the
    seventh value of a row is the name of the volume that the cache holds
    for the volume ID of the backup, and the volume ID itself when the
    cache holds none. The cache holds, for an ID, the last volume of the
    listing with that ID. *)
Theorem C10_list_backup_volume_names :
  ∀ W (vc : VolumeClient W) (args : ListBackup.parsed_args) (w : W),
    let run := ListBackup.take_action vc args (VState w []) in
    let vols := volumes_list vc w in
    let volume_cache : gmap string resource :=
      match vols.1 with
      | Ok l => ListBackup.cache_volumes l
      | Raise _ => ∅
      end in
    (∀ e, (backups_list vc vols.2).1 = Raise e → run.1 = Raise e) ∧
    (∀ data, (backups_list vc vols.2).1 = Ok data →
       ∃ rows,
         run.1 = Ok (ListBackup.column_headers args, rows) ∧
         length rows = length data ∧
         (ListBackup.long args = true →
          ListBackup.column_headers args !! 6 = Some "Volume" ∧
          ∀ i s, data !! i = Some s →
            ∃ row,
              rows !! i = Some row ∧
              row !! 6 =
                Some (match getattr_default s "volume_id" with
                      | VStr vid =>
                          match volume_cache !! vid with
                          | Some vol => name vol
                          | None => VStr vid
                          end
                      | v => v
                      end))) ∧
    (∀ l vid, vols.1 = Ok l →
       volume_cache !! vid = last (filter (λ s, id s = vid) l)).
Proof.
  intros W vc args w. simpl. rewrite ListBackup_run. simpl.
  split; [|split].
  - by intros e ->.
  - intros data ->. eexists. split; [reflexivity|].
    split; [by rewrite length_fmap|].
    intros Hlong. unfold ListBackup.column_headers, ListBackup.columns.
    rewrite Hlong. split; [done|].
    intros i s Hs. eexists. rewrite list_lookup_fmap, Hs.
    split; [reflexivity|].
    rewrite (get_item_properties_lookup _ _ _ 6 "Volume ID") by done.
    rewrite lookup_singleton_eq.
    change (field_name "Volume ID") with "volume_id".
    unfold ListBackup._format_volume_id.
    by destruct (getattr_default s "volume_id").
  - intros l vid ->. apply cache_volumes_lookup.
Qed.

(** [backup list --long] on the fake service when listing the volumes
    fails: the command succeeds and the [Volume] column shows the IDs. *)
Lemma C10_list_backups_without_volumes :
  let args := {| ListBackup.long := true |} in
  let w := {| Fakes.existing_backups := ["b1"];
              Fakes.volumes_reply :=
                Raise (ClientError "503 Service Unavailable") |} in
  (ListBackup.take_action Fakes.volume_client args (VState w [])).1 =
    Ok (["ID"; "Name"; "Description"; "Status"; "Size";
         "Availability Zone"; "Volume"; "Container"],
        [[VStr "b1"; VStr "b1"; VStr ""; VStr ""; VStr ""; VStr "";
          VStr "vol-b1"; VStr ""]]).
Proof.
  intros args w.
  destruct (C10_list_backup_volume_names _ Fakes.volume_client args w)
    as (_ & Hok & _).
  destruct (Hok [ {| id := "b1"; name := VStr "b1";
                     info := {["volume_id" := VStr "vol-b1"]} |} ])
    as (rows & Hrun & _); [by vm_compute|].
  rewrite Hrun. by vm_compute in Hrun |- *.
Defined.

(** The same when the listing has a volume with the ID of the backup's
    volume: the column shows its name. *)
Lemma list_backups_with_volumes :
  let args := {| ListBackup.long := true |} in
  let w := {| Fakes.existing_backups := ["b1"];
              Fakes.volumes_reply :=
                Ok [ {| id := "vol-b1"; name := VStr "data";
                        info := ∅ |} ] |} in
  (ListBackup.take_action Fakes.volume_client args (VState w [])).1 =
    Ok (["ID"; "Name"; "Description"; "Status"; "Size";
         "Availability Zone"; "Volume"; "Container"],
        [[VStr "b1"; VStr "b1"; VStr ""; VStr ""; VStr ""; VStr "";
          VStr "data"; VStr ""]]).
Proof. by vm_compute. Qed.

(** * Further properties of the handlers *)

(** ** RestoreBackup *)

(** X1. [RestoreBackup] resolves the backup, then the volume, then restores:
    a failed lookup ends the command with the error of the lookup and
    nothing is restored (after a failed lookup of the backup the volume is
    not even looked up); when both resolve there is exactly one restore
    call, for the two IDs found, and the command returns what it does. *)
Theorem RestoreBackup_resolves_then_restores :
  ∀ W (vc : VolumeClient W) (rm : RestoresManager W)
    (args : RestoreBackup.parsed_args) (w : W),
    let run := RestoreBackup.take_action vc rm args
                 (RState (VState w []) []) in
    let attempts := vattempts (vtrace (rvolume run.2)) in
    let found := find_resource vc Backups (RestoreBackup.backup args) w in
    (∀ e, found.1 = Raise e →
       run.1 = Raise e ∧ rrestores run.2 = [] ∧
       attempts = [RestoreBackup.backup args]) ∧
    (∀ b, found.1 = Ok b →
       let found' :=
         find_resource vc Volumes (RestoreBackup.volume args) found.2 in
       attempts = [RestoreBackup.backup args; RestoreBackup.volume args] ∧
       (∀ e, found'.1 = Raise e →
          run.1 = Raise e ∧ rrestores run.2 = []) ∧
       (∀ v, found'.1 = Ok v →
          rrestores run.2 = [(id b, id v)] ∧
          run.1 = (restore rm (id b) (id v) found'.2).1)).
Proof.
  intros W vc rm args w. simpl.
  unfold RestoreBackup.take_action, bind, lift_volume, call_find_resource,
    call_restore. simpl.
  destruct (find_resource vc Backups (RestoreBackup.backup args) w)
    as [[b|e] w1]; simpl.
  - split; [intros ? [=]|]. intros ? [= <-].
    destruct (find_resource vc Volumes (RestoreBackup.volume args) w1)
      as [[v|e] w2]; simpl.
    + destruct (restore rm (id b) (id v) w2) as [r w3] eqn:Hr; simpl.
      split; [done|]. split; [intros ? [=]|]. intros ? [= <-].
      by rewrite Hr.
    + split; [done|]. split; [by intros ? [= <-]|intros ? [=]].
  - split; [by intros ? [= <-]|intros ? [=]].
Qed.

(** ** DeleteBackup: the accounts *)

Lemma backup_block_counts force i blk :
  backup_block force i blk →
  length (vdeleted blk) + vfailures blk = 1 ∧
  length (vlogged blk) = vfailures blk ∧
  Forall (λ f, f = force) (vforces blk).
Proof. destruct 1; repeat split; by repeat constructor. Qed.

Lemma backup_blocks_counts force items blocks :
  Forall2 (backup_block force) items blocks →
  length (vdeleted (concat blocks)) + vfailures (concat blocks)
    = length items ∧
  length (vlogged (concat blocks)) = vfailures (concat blocks) ∧
  Forall (λ f, f = force) (vforces (concat blocks)).
Proof.
  induction 1 as [|i blk items blocks Hb _ (IH1 & IH2 & IH3)]; [done|].
  destruct (backup_block_counts _ _ _ Hb) as (H1 & H2 & H3).
  simpl. unfold vdeleted, vlogged, vforces in *.
  rewrite !omap_app, !length_app, vfailures_app, Forall_app.
  repeat split; [lia|lia|done|done].
Qed.

(** X2. The accounts of [DeleteBackup] balance: every identifier is either
    deleted or counted as failed, never both and never twice, so the
    number of failures never exceeds the number of identifiers; each
    failure is one line in the error log; and every delete call carries
    the [--force] of the command line. *)
Theorem DeleteBackup_accounts :
  ∀ W (vc : VolumeClient W) (args : DeleteBackup.parsed_args) (w : W),
    let tr := vtrace (DeleteBackup.take_action vc args (VState w [])).2 in
    length (vdeleted tr) + vfailures tr = length (DeleteBackup.backups args)
    ∧ vfailures tr ≤ length (DeleteBackup.backups args)
    ∧ length (vlogged tr) = vfailures tr
    ∧ Forall (λ f, f = DeleteBackup.force args) (vforces tr).
Proof.
  intros W vc args w. simpl.
  destruct (DeleteBackup_run vc args w) as (blocks & s' & Hbl & Htr & ->).
  simpl. rewrite Htr.
  destruct (backup_blocks_counts _ _ _ Hbl) as (H1 & H2 & H3).
  repeat split; [done|lia|done|done].
Qed.

(** ** DeleteNetwork: what is done when it fails *)

Lemma network_blocks_counts items blocks :
  Forall2 network_block items blocks →
  length (ndeleted (concat blocks)) + nfailures (concat blocks)
    = length items.
Proof.
  induction 1 as [|i blk items blocks Hb _ IH]; [done|].
  simpl. unfold ndeleted in *. rewrite omap_app, length_app, nfailures_app.
  assert (length (omap (λ ev, match ev with
                              | EDeleteNetwork _id (Ok _) => Some _id
                              | _ => None
                              end) blk) + nfailures blk = 1) as Hblk.
  { destruct Hb as [_id [[]|e]|e]; reflexivity. }
  lia.
Qed.

(** X3. [DeleteNetwork] does not undo its work: when it succeeds it has
    deleted one network per identifier, and when it fails on the k-th
    identifier it has deleted the k-1 networks before it. *)
Theorem DeleteNetwork_partial_effect :
  ∀ W (nc : NetworkClient W) (args : DeleteNetwork.parsed_args) (w : W),
    let run := DeleteNetwork.take_action nc args (NState w []) in
    match run.1 with
    | Ok _ =>
        length (ndeleted (ntrace run.2))
          = length (DeleteNetwork.networks args)
    | Raise _ =>
        length (ndeleted (ntrace run.2)) + 1
          = length (nattempts (ntrace run.2)) ∧
        length (nattempts (ntrace run.2))
          ≤ length (DeleteNetwork.networks args)
    end.
Proof.
  intros W nc args w. simpl. unfold DeleteNetwork.take_action.
  destruct (DeleteNetwork_loop nc (DeleteNetwork.networks args)
              (NState w []))
    as (out & k & blocks & s' & -> & Hbl & Htr & Hend & Hk).
  simpl in *. rewrite Htr.
  pose proof (network_blocks_counts _ _ Hbl) as Hcount.
  pose proof (network_blocks_attempts _ _ Hbl) as Hatt.
  destruct out as [[]|e]; simpl in Hend.
  - rewrite Hk in Hcount by done. rewrite take_ge in Hcount by lia.
    rewrite Hend in Hcount. by rewrite Nat.add_0_r in Hcount.
  - destruct Hend as [Hone _]. rewrite Hatt, length_take.
    rewrite Hone in Hcount. rewrite Hcount, length_take. split; lia.
Qed.

(** Three networks of which the second does not exist: the first is
    deleted and stays so, the third is left alone. *)
Lemma delete_network_n1_n2_n3 :
  let args := {| DeleteNetwork.networks := ["n1"; "n2"; "n3"] |} in
  let w := {| Fakes.existing_networks := ["n1"; "n3"];
              Fakes.record_reply := ∅; Fakes.listing_reply := ∅ |} in
  let run := DeleteNetwork.take_action Fakes.network_client args
               (NState w []) in
  ndeleted (ntrace run.2) = ["n1"] ∧
  Fakes.existing_networks (nworld run.2) = ["n3"].
Proof. by vm_compute. Qed.

(** ** CreateBackup: lookups before the call *)

(** X4. [CreateBackup] resolves the volume, then the snapshot when
    [--snapshot] is not empty, and only then creates: a failed lookup ends
    the command with its error and no create call. The one create call is
    for the ID of the volume found, with [snapshot_id] the ID of the
    snapshot found, or [None] when no snapshot was asked for. *)
Theorem CreateBackup_resolves_then_creates :
  ∀ W (vc : VolumeClient W) (args : CreateBackup.parsed_args) (w : W),
    let run := CreateBackup.take_action vc args (VState w []) in
    let found := find_resource vc Volumes (CreateBackup.volume args) w in
    (∀ e, found.1 = Raise e →
       run.1 = Raise e ∧ creates (vtrace run.2) = []) ∧
    (∀ vol, found.1 = Ok vol →
       (truthy_str (CreateBackup.snapshot args) = false →
        creates (vtrace run.2)
          = [(id vol, CreateBackup.create_kwargs args None)] ∧
        vattempts (vtrace run.2) = [CreateBackup.volume args]) ∧
       (∀ s, CreateBackup.snapshot args = Some s → s ≠ "" →
          let found' := find_resource vc VolumeSnapshots s found.2 in
          vattempts (vtrace run.2) = [CreateBackup.volume args; s] ∧
          (∀ e, found'.1 = Raise e →
             run.1 = Raise e ∧ creates (vtrace run.2) = []) ∧
          (∀ snap, found'.1 = Ok snap →
             creates (vtrace run.2)
               = [(id vol,
                   CreateBackup.create_kwargs args (Some (id snap)))] ∧
             CreateBackup.create_kwargs args (Some (id snap))
               !! "snapshot_id" = Some (VStr (id snap))))).
Proof.
  intros W vc args w. simpl.
  unfold CreateBackup.take_action, bind, call_find_resource,
    call_backups_create, ret. simpl.
  destruct (find_resource vc Volumes (CreateBackup.volume args) w)
    as [[vol|e] w1]; simpl.
  - split; [intros ? [=]|]. intros ? [= <-]. split.
    + intros ->. simpl.
      by destruct (backups_create vc _ _ w1) as [[b|e] w2].
    + intros s Hs Hne. rewrite Hs. simpl.
      destruct (String.eqb_spec s "") as [|_]; [done|]. simpl.
      destruct (find_resource vc VolumeSnapshots s w1) as [[snap|e] w2];
        simpl.
      * destruct (backups_create vc _ _ w2) as [[b|e] w3]; simpl;
          (split; [done|]); (split; [intros ? [=]|]); intros ? [= <-];
          (split; [done|]); unfold CreateBackup.create_kwargs;
          by simplify_map_eq.
      * split; [done|]. split; [by intros ? [= <-]|intros ? [=]].
  - split; [by intros ? [= <-]|intros ? [=]].
Qed.

(** ** Show: the degenerate outputs *)

Lemma zip_star_sorted_items_empty {A} (d : gmap string A) :
  zip_star (sorted_items d) = ZEmpty ↔ d = ∅.
Proof.
  rewrite <-sorted_items_nil. by destruct (sorted_items d).
Qed.

Lemma zip_star_pair {A} (rows : list (string * A)) ks vs :
  zip_star rows = ZPair ks vs → ks = rows.*1 ∧ vs = rows.*2 ∧ rows ≠ [].
Proof. destruct rows; [done|]. by intros [= <- <-]. Qed.

(** X5. [ShowBackup] returns nothing at all, not a pair of empty tuples,
    exactly when the record of the backup has no entry besides [links];
    otherwise it returns as many values as keys, one per entry of the
    record other than [links]. *)
Theorem ShowBackup_output_shape :
  ∀ W (vc : VolumeClient W) (args : ShowBackup.parsed_args) (w w1 : W) b,
    find_resource vc Backups (ShowBackup.backup args) w = (Ok b, w1) →
    ∃ z,
      (ShowBackup.take_action vc args (VState w [])).1 = Ok z ∧
      (z = ZEmpty ↔ ∀ k, is_Some (info b !! k) → k = "links") ∧
      (∀ ks vs, z = ZPair ks vs →
         length ks = length vs ∧
         length ks = size (delete "links" (info b)) ∧
         0 < length ks).
Proof.
  intros W vc args w w1 b Hf.
  unfold ShowBackup.take_action, bind, call_find_resource, ret. simpl.
  rewrite Hf. simpl. eexists. split; [done|]. unfold pop. split.
  - rewrite zip_star_sorted_items_empty, map_empty. split.
    + intros Hd k [v Hv]. destruct (decide (k = "links")) as [|Hne]; [done|].
      specialize (Hd k). rewrite lookup_delete_ne in Hd by done. congruence.
    + intros Hk k. apply eq_None_not_Some. intros [v Hv].
      apply lookup_delete_Some in Hv as [Hne Hv]. destruct Hne.
      symmetry. apply Hk. by exists v.
  - intros ks vs Hz. apply zip_star_pair in Hz as (-> & -> & Hne).
    rewrite !length_fmap. split; [done|]. split.
    + unfold sorted_items.
      rewrite merge_sort_Permutation. by rewrite length_map_to_list.
    + destruct (sorted_items (delete "links" (info b))); [done|simpl; lia].
Qed.

(** [backup show b1] on the fake service: two entries besides [links]. *)
Lemma show_backup_b1_shape :
  let args := {| ShowBackup.backup := "b1" |} in
  let w := {| Fakes.existing_backups := ["b1"];
              Fakes.volumes_reply := Ok [] |} in
  ∃ ks vs,
    (ShowBackup.take_action Fakes.volume_client args (VState w [])).1
      = Ok (ZPair ks vs) ∧
    length ks = 2 ∧ length vs = 2.
Proof.
  intros args w.
  destruct (ShowBackup_output_shape _ Fakes.volume_client args w w
              (Fakes.fake_backup "b1")) as (z & Hrun & _ & Hpair);
    [by vm_compute|].
  vm_compute in Hrun. injection Hrun as <-.
  eexists _, _. split; [by vm_compute|].
  destruct (Hpair _ _ eq_refl) as (Hlen & Hsize & _).
  split; [|rewrite <-Hlen]; by vm_compute.
Defined.

(** X6. [ShowNetwork] has no fallback for a poor answer, unlike
    [CreateNetwork]: a failed lookup ends it before any show call; an
    answer without the key [network] raises [KeyError], [None] under the
    key raises [TypeError], and an empty record gives an empty output
    rather than the pair of empty strings. *)
Theorem ShowNetwork_failure_modes :
  ∀ W (nc : NetworkClient W) (args : ShowNetwork.parsed_args) (w : W),
    let run := ShowNetwork.take_action nc args (NState w []) in
    let found :=
      find nc "network" "networks" (ShowNetwork.identifier args) w in
    (∀ e, found.1 = Raise e →
       run.1 = Raise e ∧
       ntrace run.2 =
         [EFind "network" "networks" (ShowNetwork.identifier args)
            (Raise e)]) ∧
    (∀ _id, found.1 = Ok _id →
       let shown := show_network nc _id found.2 in
       ntrace run.2 =
         [EFind "network" "networks" (ShowNetwork.identifier args) (Ok _id);
          EShowNetwork _id] ∧
       (∀ e, shown.1 = Raise e → run.1 = Raise e) ∧
       (∀ resp, shown.1 = Ok resp →
          (resp !! "network" = None → run.1 = Raise (KeyError "network")) ∧
          (resp !! "network" = Some None →
           ∃ msg, run.1 = Raise (TypeError msg)) ∧
          (resp !! "network" = Some (Some ∅) → run.1 = Ok ZEmpty))).
Proof.
  intros W nc args w. simpl.
  unfold ShowNetwork.take_action, bind, call_find, call_show_network,
    subscript, ret, raise. simpl.
  destruct (find nc "network" "networks" (ShowNetwork.identifier args) w)
    as [[_id|e] w1]; simpl.
  - split; [intros ? [=]|]. intros ? [= <-].
    destruct (show_network nc _id w1) as [[resp|e] w2]; simpl.
    + destruct (resp !! "network") as [[d|]|] eqn:Hr; simpl;
        (split; [done|]); (split; [intros ? [=]|]); intros ? [= <-];
        rewrite Hr; (split; [try done|split]); try done.
      * intros [= ->]. by vm_compute.
      * intros _. by eexists.
    + split; [done|]. split; [by intros ? [= <-]|intros ? [=]].
  - split; [by intros ? [= <-]|intros ? [=]].
Qed.

(** ** List: requests, columns and rows *)

(** X7. [ListNetwork] issues exactly one call. Without a DHCP agent it is
    [list_networks], filtered by [router:external] exactly when
    [--external] is given; an error of the call is the error of the
    command, and an answer without the key [networks] raises
    [KeyError]. *)
Theorem ListNetwork_request :
  ∀ W (nc : NetworkClient W) (args : ListNetwork.parsed_args) (w : W),
    truthy_str (ListNetwork.dhcp args) = false →
    let run := ListNetwork.take_action nc args (NState w []) in
    ∃ report_filter,
      ntrace run.2 = [EListNetworks report_filter] ∧
      (∀ k v, report_filter !! k = Some v ↔
         ListNetwork.external args = true ∧ k = "router:external" ∧
         v = VBool true) ∧
      (∀ e, (list_networks nc report_filter w).1 = Raise e →
         run.1 = Raise e) ∧
      (∀ resp, (list_networks nc report_filter w).1 = Ok resp →
         resp !! "networks" = None → run.1 = Raise (KeyError "networks")).
Proof.
  intros W nc args w Hd. simpl. rewrite ListNetwork_run. simpl.
  rewrite Hd. eexists. split; [reflexivity|]. split; [|split].
  - intros k v. destruct (ListNetwork.external args).
    + rewrite lookup_singleton_Some. intuition congruence.
    + rewrite lookup_empty. intuition congruence.
  - by intros e ->.
  - by intros resp -> ->.
Qed.

(** [network list --external] on the fake service. *)
Lemma list_external_networks :
  let args := {| ListNetwork.external := true; ListNetwork.dhcp := None;
                 ListNetwork.long := false; ListNetwork.columns := [] |} in
  let w := {| Fakes.existing_networks := [];
              Fakes.record_reply := ∅; Fakes.listing_reply := ∅ |} in
  let run := ListNetwork.take_action Fakes.network_client args
               (NState w []) in
  ntrace run.2 = [EListNetworks {["router:external" := VBool true]}] ∧
  run.1 = Raise (KeyError "networks").
Proof.
  intros args w run.
  destruct (ListNetwork_request _ Fakes.network_client args w eq_refl)
    as (f & Htr & _ & _ & Hkey).
  split; [by vm_compute|]. by apply (Hkey ∅).
Defined.

(** X8. Without [--long] and without a DHCP agent, the columns of
    [ListNetwork] are the requested columns that are keys of the first
    record, in the order requested: a requested column that the first
    record lacks is dropped without a word, and no other column is
    shown. *)
Theorem ListNetwork_short_columns :
  ∀ W (nc : NetworkClient W) (args : ListNetwork.parsed_args) (w : W)
    cols rows,
    ListNetwork.long args = false →
    truthy_str (ListNetwork.dhcp args) = false →
    (ListNetwork.take_action nc args (NState w [])).1 = Ok (cols, rows) →
    let requested :=
      match ListNetwork.columns args with
      | [] => ["id"; "name"; "subnets"]
      | _ => ListNetwork.columns args
      end in
    ∃ resp w1 data,
      list_networks nc
        (if ListNetwork.external args
         then {["router:external" := VBool true]} else ∅) w
        = (Ok resp, w1) ∧
      resp !! "networks" = Some data ∧
      cols `sublist_of` requested ∧
      ∀ c, c ∈ cols ↔
           c ∈ requested ∧ ∃ d, head data = Some d ∧ is_Some (d !! c).
Proof.
  intros W nc args w cols rows Hlong Hd. rewrite ListNetwork_run. simpl.
  rewrite Hd, Hlong. simpl.
  destruct (list_networks nc _ w) as [[resp|e] w1] eqn:Hl; simpl; [|done].
  destruct (resp !! "networks") as [data|] eqn:Hr; [|done].
  intros [= <- _]. exists resp, w1, data. split; [done|]. split; [done|].
  split; [apply sublist_filter|].
  intros c. rewrite list_elem_of_filter. split.
  - intros [Hc Hreq]. split; [done|].
    destruct data as [|d rest]; simpl in Hc; [by apply elem_of_nil in Hc|].
    exists d. split; [done|]. by apply sorted_keys_spec.
  - intros [Hreq (d & Hd' & Hk)]. split; [|done].
    destruct data as [|d' rest]; [done|]. simpl in *.
    injection Hd' as ->. by apply sorted_keys_spec.
Qed.

(** X9. When the service returns no network, [ListNetwork] has no column and
    no row, whatever the flags and the requested columns. *)
Theorem ListNetwork_nothing_listed :
  ∀ W (nc : NetworkClient W) (args : ListNetwork.parsed_args) (w : W)
    cols rows,
    (ListNetwork.take_action nc args (NState w [])).1 = Ok (cols, rows) →
    rows = [] → cols = [].
Proof.
  intros W nc args w cols rows. rewrite ListNetwork_run. simpl.
  destruct (if truthy_str (ListNetwork.dhcp args) then _ else _)
    as [[resp|e] w1]; simpl; [|done].
  destruct (resp !! _) as [data|]; [|done].
  intros [= <- <-] Hrows. apply fmap_nil_inv in Hrows as ->. simpl.
  destruct (negb _ && negb _); [|done].
  induction (match ListNetwork.columns args with
             | [] => _ | _ => _ end) as [|c l IH]; [done|].
  rewrite filter_cons_False; [done|]. by intros ?%elem_of_nil.
Qed.

(** X10. Every row of a listing has one value per column: the rows of
    [ListNetwork] are as long as its columns, those of [ListBackup] as
    long as its headers (five, or eight with [--long]), and there is one
    row per record returned. *)
Theorem list_rows_align :
  (∀ W (nc : NetworkClient W) (args : ListNetwork.parsed_args) (w : W)
     cols rows,
     (ListNetwork.take_action nc args (NState w [])).1 = Ok (cols, rows) →
     Forall (λ row, length row = length cols) rows) ∧
  (∀ W (vc : VolumeClient W) (args : ListBackup.parsed_args) (w : W)
     headers rows,
     (ListBackup.take_action vc args (VState w [])).1 = Ok (headers, rows) →
     length headers = (if ListBackup.long args then 8 else 5) ∧
     Forall (λ row, length row = length headers) rows ∧
     ∃ data, (backups_list vc (volumes_list vc w).2).1 = Ok data ∧
             length rows = length data).
Proof.
  split.
  - intros W nc args w cols rows. rewrite ListNetwork_run. simpl.
    destruct (if truthy_str (ListNetwork.dhcp args) then _ else _)
      as [[resp|e] w1]; simpl; [|done].
    destruct (resp !! _) as [data|]; [|done].
    intros [= <- <-]. apply Forall_fmap, Forall_true. intros d. simpl.
    unfold get_dict_properties. by rewrite length_fmap.
  - intros W vc args w headers rows. rewrite ListBackup_run. simpl.
    destruct (backups_list vc _).1 as [data|e] eqn:Hb; [|done].
    intros [= <- <-].
    unfold ListBackup.column_headers, ListBackup.columns.
    split; [by destruct (ListBackup.long args)|]. split.
    + apply Forall_fmap, Forall_true. intros s. simpl.
      unfold get_item_properties. rewrite length_fmap.
      by destruct (ListBackup.long args).
    + exists data. split; [done|]. by rewrite length_fmap.
Qed.

(** X11. Without [--long], [ListBackup] still lists the volumes first, but its
    rows owe nothing to them: each row is the ID, the name, the
    description, the status and the size of a backup, as they are. *)
Theorem ListBackup_short_rows :
  ∀ W (vc : VolumeClient W) (args : ListBackup.parsed_args) (w : W) data,
    ListBackup.long args = false →
    (backups_list vc (volumes_list vc w).2).1 = Ok data →
    let run := ListBackup.take_action vc args (VState w []) in
    vtrace run.2 = [EVolumesList; EBackupsList] ∧
    run.1 =
      Ok (["ID"; "Name"; "Description"; "Status"; "Size"],
          (λ s, [VStr (id s); name s;
                 default (VStr "") (info s !! "description");
                 default (VStr "") (info s !! "status");
                 default (VStr "") (info s !! "size")]) <$> data).
Proof.
  intros W vc args w data Hlong Hb. simpl. rewrite ListBackup_run. simpl.
  rewrite Hb. split; [done|].
  unfold ListBackup.column_headers, ListBackup.columns. rewrite Hlong.
  do 2 f_equal.
Qed.

(** [backup list] on the fake service. *)
Lemma list_backups_short :
  let args := {| ListBackup.long := false |} in
  let w := {| Fakes.existing_backups := ["b1"];
              Fakes.volumes_reply := Raise (ClientError "503") |} in
  (ListBackup.take_action Fakes.volume_client args (VState w [])).1
    = Ok (["ID"; "Name"; "Description"; "Status"; "Size"],
          [[VStr "b1"; VStr "b1"; VStr ""; VStr ""; VStr ""]]).
Proof.
  intros args w.
  destruct (ListBackup_short_rows _ Fakes.volume_client args w
              [ {| id := "b1"; name := VStr "b1";
                   info := {["volume_id" := VStr "vol-b1"]} |} ])
    as [_ Hrun]; [done|by vm_compute|].
  rewrite Hrun. by vm_compute.
Defined.

(** ** filters *)

(** X12. [filters] keeps the keys of a record and every value but the one of
    [subnets], which it formats; a record without [subnets] comes back
    as it is. *)
Theorem filters_only_formats_subnets :
  ∀ W (nc : NetworkClient W) (data : record),
    dom (filters nc data) = dom data ∧
    (∀ k, k ≠ "subnets" → filters nc data !! k = data !! k) ∧
    filters nc data !! "subnets" = format_list nc <$> data !! "subnets" ∧
    (data !! "subnets" = None → filters nc data = data).
Proof.
  intros W nc data. split; [|split; [|split]].
  - apply set_eq. intros k. rewrite !elem_of_dom. apply dom_filters.
  - intros k Hk. rewrite lookup_filters. by rewrite decide_False.
  - rewrite lookup_filters. by rewrite decide_True.
  - intros Hs. unfold filters. by rewrite Hs.
Qed.

(** [network list -c name -c mtu -c id] on a service whose first record
    has no [mtu]: the column is dropped, the order is the one asked. *)
Lemma list_networks_requested_columns :
  let args := {| ListNetwork.external := false; ListNetwork.dhcp := None;
                 ListNetwork.long := false;
                 ListNetwork.columns := ["name"; "mtu"; "id"] |} in
  let w := {| Fakes.existing_networks := ["net1"];
              Fakes.record_reply := ∅;
              Fakes.listing_reply :=
                {["networks" :=
                    [ {["name" := VStr "net1"; "id" := VStr "net1"]} ] ]} |} in
  (ListNetwork.take_action Fakes.network_client args (NState w [])).1
    = Ok (["name"; "id"], [[VStr "net1"; VStr "net1"]]) ∧
  ["name"; "id"] `sublist_of` ["name"; "mtu"; "id"] ∧
  "mtu" ∉ ["name"; "id"].
Proof.
  intros args w.
  assert (Hrun :
    (ListNetwork.take_action Fakes.network_client args (NState w [])).1
    = Ok (["name"; "id"], [[VStr "net1"; VStr "net1"]])) by by vm_compute.
  destruct (ListNetwork_short_columns _ Fakes.network_client args w _ _
              eq_refl eq_refl Hrun)
    as (resp & w1 & data & Hl & Hr & Hsub & Hcols).
  split; [exact Hrun|]. split; [exact Hsub|].
  intros Hin. apply Hcols in Hin as [_ (d & Hd & Hk)].
  vm_compute in Hl. injection Hl as <- <-.
  vm_compute in Hr. injection Hr as <-.
  injection Hd as <-. vm_compute in Hk. by destruct Hk.
Defined.

(** [network list --long -c id] on a service without networks. *)
Lemma list_no_networks :
  let args := {| ListNetwork.external := false; ListNetwork.dhcp := None;
                 ListNetwork.long := true; ListNetwork.columns := ["id"] |} in
  let w := {| Fakes.existing_networks := [];
              Fakes.record_reply := ∅;
              Fakes.listing_reply := {["networks" := []]} |} in
  (ListNetwork.take_action Fakes.network_client args (NState w [])).1
    = Ok ([], []).
Proof.
  intros args w.
  destruct (ListNetwork.take_action Fakes.network_client args
              (NState w [])).1 as [[cols rows]|e] eqn:Hrun;
    [|by vm_compute in Hrun].
  assert (rows = []) as ->.
  { vm_compute in Hrun. by injection Hrun as _ <-. }
  by rewrite (ListNetwork_nothing_listed _ _ _ _ _ _ Hrun eq_refl).
Defined.

(** [backup restore b1 vol1] on the fake service: one restore, for the
    two IDs. *)
Lemma restore_b1_to_vol1 :
  let args := {| RestoreBackup.backup := "b1";
                 RestoreBackup.volume := "vol1" |} in
  let w := {| Fakes.existing_backups := ["b1"];
              Fakes.volumes_reply := Ok [] |} in
  rrestores (RestoreBackup.take_action Fakes.volume_client fake_restores
               args (RState (VState w []) [])).2 = [("b1", "vol1")].
Proof.
  intros args w.
  destruct (RestoreBackup_resolves_then_restores _ Fakes.volume_client
              fake_restores args w) as [_ Hok].
  destruct (Hok (Fakes.fake_backup "b1") eq_refl) as (_ & _ & Hboth).
  by destruct (Hboth {| id := "vol1"; name := VStr "vol1"; info := ∅ |}
                 eq_refl) as [Hres _].
Defined.

(** * The flag parsers *)

Lemma lookup_option_Some opts opt a :
  lookup_option opts opt = Some a → option_string a = opt ∧ In a opts.
Proof.
  unfold lookup_option. intros Hf. apply find_some in Hf as [Hin Heq].
  split; [|done]. by apply String.eqb_eq.
Qed.

Lemma toggle_value_ext unset on off l l' :
  (on ∈ l ↔ on ∈ l') → (off ∈ l ↔ off ∈ l') →
  toggle_value unset on off l = toggle_value unset on off l'.
Proof.
  intros Hon Hoff. unfold toggle_value.
  destruct (decide (on ∈ l)), (decide (on ∈ l')),
           (decide (off ∈ l)), (decide (off ∈ l')); tauto.
Qed.

(** A destination that the base class keeps off starts with the default
    of the first argument of [get_parser] that names it. *)
Lemma initial_namespace_lookup (p : parser) (base : namespace) d :
  base !! d = None →
  initial_namespace p base !! d =
  action_default <$>
    List.find (λ a, String.eqb (dest a) d) (positionals p ++ optionals p).
Proof.
  unfold initial_namespace. intros Hbase.
  assert (∀ (l : list argument) (ns : namespace),
    foldl (λ ns a, match ns !! dest a with
                   | Some _ => ns
                   | None => <[dest a := action_default a]> ns
                   end) ns l !! d =
    match ns !! d with
    | Some v => Some v
    | None => action_default <$> List.find (λ a, String.eqb (dest a) d) l
    end) as Hgen.
  { induction l as [|a l IH]; intros ns; simpl.
    - by destruct (ns !! d).
    - rewrite IH. destruct (String.eqb_spec (dest a) d) as [Heq|Hne].
      + rewrite <-Heq. destruct (ns !! dest a) as [v|] eqn:Hv.
        * by rewrite Hv.
        * by rewrite lookup_insert_eq.
      + destruct (ns !! dest a); [done|]. by rewrite lookup_insert_ne. }
  by rewrite Hgen, Hbase.
Qed.

Section toggle.
Variables (opts : list argument) (on off d : string) (g : nat).
Variables (default_on default_off : option value) (unset : value).
Hypothesis Hon :
  lookup_option opts on = Some (Argument on d store_true default_on (Some g)).
Hypothesis Hoff :
  lookup_option opts off
  = Some (Argument off d store_false default_off (Some g)).
Hypothesis Hne : on ≠ off.
Hypothesis Hothers :
  Forall (λ c, option_string c = on ∨ option_string c = off ∨ dest c ≠ d)
         opts.

(** An option that is accepted after [seen] excludes the other option of
    its group from [seen]. *)
Lemma conflicts_false seen a b :
  conflicts opts seen a = false →
  In b opts → group b = group a → is_Some (group a) →
  option_string b ≠ option_string a →
  option_string b ∉ seen.
Proof.
  unfold conflicts. intros Hc Hb Hg [ga Hga] Hs Hin. rewrite Hga in Hc, Hg.
  assert (existsb (λ b0, bool_decide (group b0 = Some ga) &&
            negb (String.eqb (option_string b0) (option_string a)) &&
            bool_decide (option_string b0 ∈ seen)) opts = true) as Hex.
  { apply existsb_exists. exists b. split; [done|].
    rewrite !andb_true_iff, negb_true_iff, String.eqb_neq.
    by rewrite !bool_decide_eq_true. }
  by rewrite Hex in Hc.
Qed.

(** What an accepted option of [get_parser] is, for the pair. *)
Lemma option_kind seen opt a :
  lookup_option opts opt = Some a →
  conflicts opts seen a = false →
  (opt = on ∧ a = Argument on d store_true default_on (Some g) ∧
   off ∉ seen) ∨
  (opt = off ∧ a = Argument off d store_false default_off (Some g) ∧
   on ∉ seen) ∨
  (opt ≠ on ∧ opt ≠ off ∧ dest a ≠ d).
Proof.
  intros Ha Hc.
  destruct (lookup_option_Some _ _ _ Ha) as [Hname Hin].
  destruct (lookup_option_Some _ _ _ Hon) as [_ Hin_on].
  destruct (lookup_option_Some _ _ _ Hoff) as [_ Hin_off].
  destruct (decide (opt = on)) as [->|Hn1].
  - left. rewrite Hon in Ha. injection Ha as <-. split; [done|].
    split; [done|].
    apply (conflicts_false seen _ _ Hc Hin_off); simpl; eauto.
  - destruct (decide (opt = off)) as [->|Hn2].
    + right. left. rewrite Hoff in Ha. injection Ha as <-.
      split; [done|]. split; [done|].
      apply (conflicts_false seen _ _ Hc Hin_on); simpl; eauto.
    + right. right. split; [done|]. split; [done|].
      rewrite Forall_forall in Hothers.
      destruct (Hothers a) as [?|[?|?]]; [by apply list_elem_of_In|..];
        congruence.
Qed.

(** The pass over the occurrences keeps the destination of the pair at
    the value that the flags seen so far give it. *)
Lemma consume_toggle :
  ∀ occs pos seen ns ns',
    Forall (λ c, dest c ≠ d) pos →
    Forall (λ o, match o with OInherited d' _ => d' ≠ d | _ => True end)
           occs →
    consume opts pos seen ns occs = Some ns' →
    ¬ (on ∈ seen ∧ off ∈ seen) →
    ns !! d = Some (toggle_value unset on off seen) →
    ns' !! d = Some (toggle_value unset on off (flags occs ++ seen)) ∧
    ¬ (on ∈ flags occs ++ seen ∧ off ∈ flags occs ++ seen).
Proof.
  induction occs as [|o occs IH];
    intros pos seen ns ns' Hpos Hinh Hrun Hex Hns; simpl in Hrun.
  { destruct pos; [|done]. by injection Hrun as <-. }
  apply Forall_cons in Hinh as [Ho Hinh].
  destruct o as [opt|opt v|tok|d' v].
  - destruct (lookup_option opts opt) as [a|] eqn:Ha; [|done].
    destruct (conflicts opts seen a) eqn:Hc; [done|].
    pose proof (option_kind seen opt a Ha Hc) as Hkind.
    assert (Hstep : ∀ v,
      (opt = on → v = VBool true) → (opt = off → v = VBool false) →
      <[dest a := v]> ns !! d
        = Some (toggle_value unset on off (opt :: seen)) ∧
      ¬ (on ∈ opt :: seen ∧ off ∈ opt :: seen)).
    { intros v Hv1 Hv2. rewrite !elem_of_cons.
      destruct Hkind as [(-> & -> & Hns')|[(-> & -> & Hns')|(? & ? & ?)]].
      - simpl. rewrite lookup_insert_eq, (Hv1 eq_refl). split.
        + unfold toggle_value. rewrite decide_True; [done|].
          apply list_elem_of_here.
        + intros [_ [?|?]]; [congruence|done].
      - simpl. rewrite lookup_insert_eq, (Hv2 eq_refl). split.
        + unfold toggle_value.
          rewrite decide_False, decide_True; [done|apply list_elem_of_here|].
          rewrite elem_of_cons. intros [?|?]; [congruence|done].
        + intros [[?|?] _]; [congruence|done].
      - rewrite lookup_insert_ne, Hns by done. split.
        + f_equal. apply toggle_value_ext; rewrite elem_of_cons;
            intuition congruence.
        + intuition congruence. }
    assert (Hflags : ∀ x, x ∈ flags (OFlag opt :: occs) ++ seen
                          ↔ x ∈ flags occs ++ opt :: seen).
    { intros x. simpl. rewrite !elem_of_app, !elem_of_cons, ?elem_of_app.
      tauto. }
    destruct (act a) eqn:Hact; [done| |].
    + destruct (Hstep (VBool true)) as [Hns1 Hex1]; [done| |].
      { intros ->.
        destruct Hkind as [(? & _)|[(_ & -> & _)|(_ & ? & _)]]; done. }
      destruct (IH pos (opt :: seen) _ ns' Hpos Hinh Hrun Hex1 Hns1)
        as [Hres Hex2].
      rewrite (toggle_value_ext _ _ _ _ _ (Hflags on) (Hflags off)),
        !Hflags. done.
    + destruct (Hstep (VBool false)) as [Hns1 Hex1]; [|done|].
      { intros ->.
        destruct Hkind as [(_ & -> & _)|[(? & _)|(? & _ & _)]]; done. }
      destruct (IH pos (opt :: seen) _ ns' Hpos Hinh Hrun Hex1 Hns1)
        as [Hres Hex2].
      rewrite (toggle_value_ext _ _ _ _ _ (Hflags on) (Hflags off)),
        !Hflags. done.
  - destruct (lookup_option opts opt) as [a|] eqn:Ha; [|done].
    destruct (conflicts opts seen a) eqn:Hc; [done|].
    destruct (act a) eqn:Hact; [|done|done].
    destruct (option_kind seen opt a Ha Hc)
      as [(_ & -> & _)|[(_ & -> & _)|(Hn1 & Hn2 & Hd)]]; [done|done|].
    assert (Hflags : ∀ x, x ≠ opt →
              (x ∈ flags (OStore opt v :: occs) ++ seen
               ↔ x ∈ flags occs ++ opt :: seen)).
    { intros x Hx. simpl. rewrite !elem_of_app, !elem_of_cons.
      intuition congruence. }
    destruct (IH pos (opt :: seen) _ ns' Hpos Hinh Hrun) as [Hres Hex2].
    + rewrite !elem_of_cons. intuition congruence.
    + rewrite lookup_insert_ne, Hns by done. f_equal.
      apply toggle_value_ext; rewrite elem_of_cons; intuition congruence.
    + rewrite (toggle_value_ext _ _ _ _ _
                 (Hflags on ltac:(congruence)) (Hflags off ltac:(congruence))).
      rewrite (Hflags on), (Hflags off) by congruence. done.
  - destruct pos as [|a pos']; [done|].
    apply Forall_cons in Hpos as [Hd Hpos'].
    apply (IH pos' seen _ ns' Hpos' Hinh Hrun Hex).
    by rewrite lookup_insert_ne.
  - apply (IH pos seen _ ns' Hpos Hinh Hrun Hex).
    by rewrite lookup_insert_ne.
Qed.
End toggle.

(** A pair of flags of a parser, on a destination that the base class
    keeps off: after a successful parse the destination holds [True] when
    the first flag is on the command line, [False] when the second is,
    and the default of the first argument that names the destination
    when neither is; the parser refuses a command line with both. *)
Lemma parse_toggle (p : parser) base on off d g default_on default_off unset
    occs ns :
  lookup_option (optionals p) on
    = Some (Argument on d store_true default_on (Some g)) →
  lookup_option (optionals p) off
    = Some (Argument off d store_false default_off (Some g)) →
  on ≠ off →
  Forall (λ c, option_string c = on ∨ option_string c = off ∨ dest c ≠ d)
         (optionals p) →
  Forall (λ c, dest c ≠ d) (positionals p) →
  action_default <$>
    List.find (λ a, String.eqb (dest a) d) (positionals p ++ optionals p)
    = Some unset →
  apart_from d base occs →
  parse_args p base occs = Some ns →
  ns !! d = Some (toggle_value unset on off (flags occs)) ∧
  ¬ (on ∈ flags occs ∧ off ∈ flags occs).
Proof.
  intros Hon Hoff Hne Hothers Hpos Hdefault [Hbase Hinh] Hrun.
  destruct (consume_toggle (optionals p) on off d g default_on default_off
              unset Hon Hoff Hne Hothers occs (positionals p) []
              (initial_namespace p base) ns Hpos Hinh Hrun)
    as [Hres Hex].
  - by intros [?%elem_of_nil _].
  - by rewrite initial_namespace_lookup, Hdefault.
  - by rewrite app_nil_r in Hres, Hex.
Qed.

(** The destinations of a parser, one by one. *)
Ltac split_apart H :=
  unfold inherited_apart in H; simpl in H;
  repeat match type of H with
         | Forall _ (_ :: _) =>
             let Hd := fresh "Hapart" in
             apply Forall_cons in H as [Hd H]; simpl in Hd
         end.

Ltac solve_toggle :=
  match goal with
  | H : parse_args ?p ?base ?occs = Some _ |- _ =>
      eapply (parse_toggle p base)
  end;
  [reflexivity | reflexivity | done
  | repeat constructor; simpl; intuition congruence
  | repeat constructor; done
  | reflexivity
  | eassumption
  | eassumption].

(** C7, as the code has it. On every command line that the parser
    accepts, however its options are spelled and whatever options of the
    base class are there besides: the pairs whose first flag declares
    [default=None] are tri-state; [--share]/[--no-share] of both parsers
    and [--enable]/[--disable] of [SetNetwork] give [None] with neither
    flag, [True] with the first and [False] with the second. The pair
    [--enable]/[--disable] of [CreateNetwork] declares [default=True]: it
    gives [False] with [--disable] and [True] otherwise, with [--enable]
    or with neither. No parser accepts both flags of a pair. *)
Theorem C7_flag_pairs :
  ∀ (base : namespace) (occs : list occurrence) (ns : namespace),
    (inherited_apart SetNetwork_parser base occs →
     parse_args SetNetwork_parser base occs = Some ns →
     ns !! "admin_state"
       = Some (tristate "--enable" "--disable" (flags occs)) ∧
     ns !! "shared" = Some (tristate "--share" "--no-share" (flags occs)) ∧
     ¬ ("--enable" ∈ flags occs ∧ "--disable" ∈ flags occs) ∧
     ¬ ("--share" ∈ flags occs ∧ "--no-share" ∈ flags occs)) ∧
    (inherited_apart CreateNetwork_parser base occs →
     parse_args CreateNetwork_parser base occs = Some ns →
     ns !! "admin_state"
       = Some (enabled_unless "--disable" (flags occs)) ∧
     ns !! "shared" = Some (tristate "--share" "--no-share" (flags occs)) ∧
     ¬ ("--enable" ∈ flags occs ∧ "--disable" ∈ flags occs) ∧
     ¬ ("--share" ∈ flags occs ∧ "--no-share" ∈ flags occs)).
Proof.
  intros base occs ns. split; intros Hapart Hrun; split_apart Hapart.
  - assert (ns !! "admin_state"
            = Some (toggle_value VNone "--enable" "--disable" (flags occs)) ∧
            ¬ ("--enable" ∈ flags occs ∧ "--disable" ∈ flags occs))
      as [Ha Hxa] by solve_toggle.
    assert (ns !! "shared"
            = Some (toggle_value VNone "--share" "--no-share" (flags occs)) ∧
            ¬ ("--share" ∈ flags occs ∧ "--no-share" ∈ flags occs))
      as [Hs Hxs] by solve_toggle.
    done.
  - assert (ns !! "admin_state"
            = Some (toggle_value (VBool true) "--enable" "--disable"
                      (flags occs)) ∧
            ¬ ("--enable" ∈ flags occs ∧ "--disable" ∈ flags occs))
      as [Ha Hxa] by solve_toggle.
    assert (ns !! "shared"
            = Some (toggle_value VNone "--share" "--no-share" (flags occs)) ∧
            ¬ ("--share" ∈ flags occs ∧ "--no-share" ∈ flags occs))
      as [Hs Hxs] by solve_toggle.
    split; [|done]. rewrite Ha. f_equal.
    unfold toggle_value, enabled_unless.
    destruct (decide ("--enable" ∈ flags occs)),
             (decide ("--disable" ∈ flags occs)); tauto.
Qed.

(** [network set net1 -f json --disable --share], in any spelling of the
    two flags: both toggles are set, and the namespace tells [--disable]
    from no flag at all. *)
Lemma C7_set_network_disable_share :
  let base : namespace := {["formatter" := VStr "table"]} in
  let occs := [OPositional "net1"; OInherited "formatter" (VStr "json");
               OFlag "--disable"; OFlag "--share"] in
  ∃ ns,
    parse_args SetNetwork_parser base occs = Some ns ∧
    ns !! "admin_state" = Some (VBool false) ∧
    ns !! "shared" = Some (VBool true).
Proof.
  intros base occs.
  exists (default ∅ (parse_args SetNetwork_parser base occs)).
  destruct (C7_flag_pairs base occs
              (default ∅ (parse_args SetNetwork_parser base occs)))
    as [Hset _].
  destruct Hset as (Ha & Hs & _).
  - repeat constructor; by vm_compute.
  - by vm_compute.
  - split; [by vm_compute|]. by rewrite Ha, Hs.
Defined.

(** C7 fails for [--enable]/[--disable] of [CreateNetwork]: with neither
    flag the value is [True], not [None], so "enabled by the user" and
    "nothing said" parse alike. *)
Lemma C7_create_network_admin_state_default :
  ∃ ns ns',
    parse_args CreateNetwork_parser ∅ [OPositional "net1"] = Some ns ∧
    parse_args CreateNetwork_parser ∅ [OPositional "net1"; OFlag "--enable"]
      = Some ns' ∧
    ns !! "admin_state" = Some (VBool true) ∧
    ns' !! "admin_state" = Some (VBool true) ∧
    tristate "--enable" "--disable" (flags [OPositional "net1"]) = VNone ∧
    ns !! "admin_state"
      ≠ Some (tristate "--enable" "--disable" (flags [OPositional "net1"])).
Proof.
  eexists _, _. split; [reflexivity|]. split; [reflexivity|].
  split; [by vm_compute|]. split; [by vm_compute|]. split; [done|].
  by vm_compute.
Qed.

(** Both flags of a pair are a usage error. *)
Lemma enable_and_disable_refused :
  parse_args SetNetwork_parser ∅
    [OPositional "net1"; OFlag "--enable"; OFlag "--disable"] = None ∧
  parse_args CreateNetwork_parser ∅
    [OPositional "net1"; OFlag "--share"; OFlag "--no-share"] = None.
Proof. by vm_compute. Qed.

(** ** From the command line to the request *)


(** The one positional argument of a parser takes the one positional
    token of the command line, when nothing else writes to its
    destination. *)
Lemma consume_positional opts d :
  Forall (λ c, dest c ≠ d) opts →
  ∀ occs pos seen ns ns',
    Forall (λ o, match o with OInherited d' _ => d' ≠ d | _ => True end)
           occs →
    consume opts pos seen ns occs = Some ns' →
    match pos with
    | [] => positional_tokens occs = [] ∧ ns' !! d = ns !! d
    | [a] =>
        dest a = d →
        ∃ tok, positional_tokens occs = [tok] ∧ ns' !! d = Some (VStr tok)
    | _ => True
    end.
Proof.
  intros Hopts. rewrite Forall_forall in Hopts.
  induction occs as [|o occs IH]; intros pos seen ns ns' Hinh Hrun;
    simpl in Hrun.
  { destruct pos; [|done]. by injection Hrun as <-. }
  apply Forall_cons in Hinh as [Ho Hinh].
  assert (Hgo : ∀ d0 v seen0,
    d0 ≠ d →
    positional_tokens (o :: occs) = positional_tokens occs →
    consume opts pos seen0 (<[d0 := v]> ns) occs = Some ns' →
    match pos with
    | [] => positional_tokens (o :: occs) = [] ∧ ns' !! d = ns !! d
    | [a] =>
        dest a = d →
        ∃ tok, positional_tokens (o :: occs) = [tok] ∧
               ns' !! d = Some (VStr tok)
    | _ => True
    end).
  { intros d0 v seen0 Hd0 Htok Hr. rewrite Htok.
    specialize (IH pos seen0 _ ns' Hinh Hr).
    destruct pos as [|a [|? ?]]; [|done..].
    destruct IH as [-> ->]. by rewrite lookup_insert_ne. }
  destruct o as [opt|opt v|tok|d' v].
  - destruct (lookup_option opts opt) as [a0|] eqn:Ha; [|done].
    destruct (conflicts opts seen a0); [done|].
    destruct (lookup_option_Some _ _ _ Ha) as [_ Hin].
    assert (dest a0 ≠ d) by by apply Hopts, list_elem_of_In.
    destruct (act a0); [done|by eapply Hgo..].
  - destruct (lookup_option opts opt) as [a0|] eqn:Ha; [|done].
    destruct (conflicts opts seen a0); [done|].
    destruct (lookup_option_Some _ _ _ Ha) as [_ Hin].
    assert (dest a0 ≠ d) by by apply Hopts, list_elem_of_In.
    destruct (act a0); [by eapply Hgo|done..].
  - destruct pos as [|a pos']; [done|].
    specialize (IH pos' seen _ ns' Hinh Hrun).
    destruct pos' as [|? ?]; [|done].
    destruct IH as [Htok Hns]. intros Ha. exists tok. simpl.
    rewrite Htok. split; [done|]. by rewrite Hns, <-Ha, lookup_insert_eq.
  - by eapply Hgo.
Qed.


Lemma as_opt_bool_toggle on off argv :
  as_opt_bool (toggle_value VNone on off argv)
  = Some (flag_pair on off argv).
Proof.
  unfold toggle_value, flag_pair.
  by destruct (decide (on ∈ argv)), (decide (off ∈ argv)).
Qed.







(** X14. The command line of [network create], end to end, however the
    options are spelled and whatever options of the base class are there
    besides: the body that is sent is [{'network': b}] where the name in
    [b] is the one positional token of the command line,
    [admin_state_up] is false with [--disable] and true without it, and
    there is a [shared] entry exactly when [--share] or [--no-share] is
    there, true for the first and false for the second. *)
Theorem CreateNetwork_command_line :
  ∀ (base : namespace) (occs : list occurrence) (ns : namespace),
    inherited_apart CreateNetwork_parser base occs →
    parse_args CreateNetwork_parser base occs = Some ns →
    ∃ args b,
      CreateNetwork_args ns = Some args ∧
      positional_tokens occs = [CreateNetwork.name args] ∧
      CreateNetwork.get_body args = {["network" := b]} ∧
      dom b = {["name"; "admin_state_up"]} ∪
              key_if "shared"
                (flag_pair "--share" "--no-share" (flags occs)) ∧
      b !! "name" = Some (VStr (CreateNetwork.name args)) ∧
      b !! "admin_state_up"
        = Some (VBool (bool_decide ("--disable" ∉ flags occs))) ∧
      b !! "shared" = VBool <$> flag_pair "--share" "--no-share" (flags occs).
Proof.
  intros base occs ns Hapart Hrun. split_apart Hapart.
  assert (ns !! "admin_state"
          = Some (toggle_value (VBool true) "--enable" "--disable"
                    (flags occs)) ∧
          ¬ ("--enable" ∈ flags occs ∧ "--disable" ∈ flags occs))
    as [Ha Hxa] by solve_toggle.
  assert (ns !! "shared"
          = Some (toggle_value VNone "--share" "--no-share" (flags occs)) ∧
          ¬ ("--share" ∈ flags occs ∧ "--no-share" ∈ flags occs))
    as [Hs Hxs] by solve_toggle.
  assert (∃ tok, positional_tokens occs = [tok] ∧
                 ns !! "name" = Some (VStr tok)) as (n & Hntok & Hn).
  { apply (consume_positional (optionals CreateNetwork_parser) "name"
             ltac:(by repeat constructor) occs
             (positionals CreateNetwork_parser) [] _ ns
             ltac:(by destruct Hapart0) Hrun eq_refl). }
  exists {| CreateNetwork.name := n;
            CreateNetwork.admin_state :=
              Some (bool_decide ("--disable" ∉ flags occs));
            CreateNetwork.shared :=
              flag_pair "--share" "--no-share" (flags occs) |}.
  eexists. split.
  { unfold CreateNetwork_args. rewrite Hn, Ha, Hs. simpl.
    rewrite as_opt_bool_toggle. simpl. do 3 f_equal.
    unfold toggle_value.
    destruct (decide ("--enable" ∈ flags occs)),
             (decide ("--disable" ∈ flags occs));
      try tauto; simpl;
      by rewrite ?bool_decide_eq_true_2, ?bool_decide_eq_false_2 by tauto. }
  split; [done|]. unfold CreateNetwork.get_body. simpl.
  split; [reflexivity|].
  destruct (flag_pair "--share" "--no-share" (flags occs)); simpl;
    rewrite ?dom_insert_L, ?dom_empty_L;
    (split; [set_solver|]); repeat split; by simplify_map_eq.
Qed.

(** [network create -- --disable]: after [--] the token [--disable] is
    the positional, so the network is named [--disable] and is enabled;
    and [network create net1 --dis --share], where [--dis] is resolved to
    [--disable]. *)
Lemma create_networks_spelled :
  (∃ args b,
     CreateNetwork_args
       (default ∅ (parse_args CreateNetwork_parser ∅
                     [OPositional "--disable"])) = Some args ∧
     CreateNetwork.get_body args = {["network" := b]} ∧
     b !! "name" = Some (VStr "--disable") ∧
     b !! "admin_state_up" = Some (VBool true) ∧
     b !! "shared" = None) ∧
  (∃ args b,
     CreateNetwork_args
       (default ∅ (parse_args CreateNetwork_parser ∅
                     [OPositional "net1"; OFlag "--disable";
                      OFlag "--share"])) = Some args ∧
     CreateNetwork.get_body args = {["network" := b]} ∧
     b !! "name" = Some (VStr "net1") ∧
     b !! "admin_state_up" = Some (VBool false) ∧
     b !! "shared" = Some (VBool true)).
Proof.
  split.
  - destruct (CreateNetwork_command_line ∅ [OPositional "--disable"]
                (default ∅ (parse_args CreateNetwork_parser ∅
                              [OPositional "--disable"])))
      as (args & b & Hargs & Hn & Hbody & _ & Hbn & Ha & Hs).
    + repeat constructor; by vm_compute.
    + by vm_compute.
    + exists args, b. injection Hn as Hn. by rewrite Hbn, <-Hn, Ha, Hs.
  - destruct (CreateNetwork_command_line ∅
                [OPositional "net1"; OFlag "--disable"; OFlag "--share"]
                (default ∅ (parse_args CreateNetwork_parser ∅
                              [OPositional "net1"; OFlag "--disable";
                               OFlag "--share"])))
      as (args & b & Hargs & Hn & Hbody & _ & Hbn & Ha & Hs).
    + repeat constructor; by vm_compute.
    + by vm_compute.
    + exists args, b. injection Hn as Hn. by rewrite Hbn, <-Hn, Ha, Hs.
Defined.

(** An empty [--dhcp] is no [--dhcp]: the run of [ListNetwork] is the one
    without the option, for every client and every other flag. *)
Lemma ListNetwork_empty_dhcp {W} (nc : NetworkClient W) args (s : nstate W) :
  ListNetwork.dhcp args = Some "" →
  ListNetwork.take_action nc args s =
  ListNetwork.take_action nc
    {| ListNetwork.external := ListNetwork.external args;
       ListNetwork.dhcp := None;
       ListNetwork.long := ListNetwork.long args;
       ListNetwork.columns := ListNetwork.columns args |} s.
Proof. intros Hd. unfold ListNetwork.take_action. by rewrite Hd. Qed.
